(** * improvebot/review.ts: the skill-review orchestrator

    A shallow embedding of [src/improvebot/review.ts].  The script drives a
    conversational agent session per skill directory, latches the last
    assistant message when the session goes idle, and files the report as a
    GitHub issue.

    Layout of the development:
    - [JS]: the fragments of the JavaScript runtime the script relies on
      (truthiness, [??], [||], [parseInt], [Array.prototype.slice],
      [indexOf], [includes], single-assignment promises);
    - [Node]: directory entries and path joining;
    - [Sdk]: the session events of the agent SDK and a scripted model of the
      session as an opaque event source;
    - the effects of the script and the outcome monad it runs in, whose
      trace records every external effect in program order;
    - [Review]: the functions of review.ts;
    - [Props], [Scenarios]: the vocabulary of the properties and the
      concrete runs they are exercised on;
    - the lemmas and theorems, component by component. *)

From Stdlib Require Import ZArith Ascii String List Lia.
From stdpp Require Import base option list strings gmap pretty.

Local Open Scope string_scope.
Local Open Scope Z_scope.
Local Open Scope list_scope.

(** ** JavaScript runtime fragments *)

Module JS.

(** The double quote and line feed characters, which the script writes as
    escapes inside its template literals. *)
Definition dquote : string := String "034"%char EmptyString.
Definition nl : string := String "010"%char EmptyString.

(** A value that may be [undefined]/[null] is an [option]. *)
Definition truthy (v : option string) : bool :=
  match v with
  | None => false
  | Some EmptyString => false
  | Some (String _ _) => true
  end.

(** [a || b] on possibly-undefined strings. *)
Definition or (a b : option string) : option string :=
  if truthy a then a else b.

(** [a ?? d] with a defined right operand. *)
Definition nullish (a : option string) (d : string) : string :=
  match a with
  | Some s => s
  | None => d
  end.

(** [String(v)] for a possibly-undefined string. *)
Definition ToString (v : option string) : string :=
  match v with
  | Some s => s
  | None => "undefined"
  end.

(** Strings are kept as the bytes of their UTF-8 encoding, which is how
    the arguments, the environment and the file names reach the script.
    Every operation the script applies to a string looks for ASCII
    characters only, except the white space [parseInt] skips, which
    [trim_start] reads off the encoded code points. *)

(** The numbers the script manipulates: the result of [parseInt] and the
    literal [Infinity].  [parseInt] yields [NaN], an infinity, or a double
    whose value is an integer; such a double is kept as that integer.
    ([-0] is kept as [0]: the two compare, slice and print alike.) *)
Inductive number : Type :=
| NaN : number
| Infinity : number
| NegInfinity : number
| Int (z : Z) : number.

(** [x < Infinity]: false for [NaN] and for [Infinity] itself. *)
Definition lt_Infinity (x : number) : bool :=
  match x with
  | Int _ | NegInfinity => true
  | NaN | Infinity => false
  end.

(** Number-to-string conversion, as performed by template literals: the
    decimal digits of an integer.  (Beyond 2^53 JavaScript prints the
    shortest digits that identify the double, and from 1e21 on an
    exponent; the only number of that size the script ever prints is the
    limit, in one line of its log.) *)
Definition number_to_string (x : number) : string :=
  match x with
  | NaN => "NaN"
  | Infinity => "Infinity"
  | NegInfinity => "-Infinity"
  | Int z => pretty z
  end.

(** The Number value of a mathematical integer: the nearest double, ties
    to the even mantissa, and an infinity from 2^1024 - 2^970 on.
    Integers up to 2^53 in magnitude are doubles already; beyond, the
    53 leading bits are kept and the rest decides the rounding. *)
Definition to_double (z : Z) : number :=
  let a := Z.abs z in
  if a <=? 2 ^ 53 then Int z
  else
    let shift := Z.log2 a - 52 in
    let q := Z.shiftr a shift in
    let r := a - Z.shiftl q shift in
    let half := Z.shiftl 1 (shift - 1) in
    let q' := if (half <? r) || ((r =? half) && Z.odd q) then q + 1 else q in
    let m := Z.shiftl q' shift in
    if 2 ^ 1024 <=? m
    then (if z <? 0 then NegInfinity else Infinity)
    else Int (if z <? 0 then - m else m).

(** *** [parseInt(string, 10)] *)

(** The white space [parseInt] skips is [StrWhiteSpaceChar]: the line
    terminators and the white space of the language, space separators
    included.  In UTF-8 these are the single bytes TAB, LF, VT, FF, CR and
    SP; the two bytes of U+00A0; and the three bytes of U+1680,
    U+2000..U+200A, U+2028, U+2029, U+202F, U+205F, U+3000 and U+FEFF. *)
Definition is_white_space (c : ascii) : bool :=
  let n := nat_of_ascii c in
  ((9 <=? n)%nat && (n <=? 13)%nat) || (n =? 32)%nat.

Definition is_white_space2 (c d : ascii) : bool :=
  ((nat_of_ascii c =? 194) && (nat_of_ascii d =? 160))%nat.

Definition is_white_space3 (c d e : ascii) : bool :=
  let '(c, d, e) := (nat_of_ascii c, nat_of_ascii d, nat_of_ascii e) in
  ((c =? 225) && (d =? 154) && (e =? 128)
   || (c =? 226) && (d =? 128)
      && ((128 <=? e) && (e <=? 138) || (e =? 168) || (e =? 169) || (e =? 175))
   || (c =? 226) && (d =? 129) && (e =? 159)
   || (c =? 227) && (d =? 128) && (e =? 128)
   || (c =? 239) && (d =? 187) && (e =? 191))%nat.

Fixpoint trim_start (s : string) : string :=
  match s with
  | String c r =>
      if is_white_space c then trim_start r
      else
        match r with
        | String d r1 =>
            if is_white_space2 c d then trim_start r1
            else
              match r1 with
              | String e r2 =>
                  if is_white_space3 c d e then trim_start r2 else s
              | EmptyString => s
              end
        | EmptyString => s
        end
  | EmptyString => s
  end.

Definition digit_value (c : ascii) : option Z :=
  let n := nat_of_ascii c in
  if ((48 <=? n)%nat && (n <=? 57)%nat)%bool
  then Some (Z.of_nat n - 48)
  else None.

(** Longest prefix of radix-10 digits, accumulated left to right; the
    boolean records whether at least one digit was consumed. *)
Fixpoint parse_digits (s : string) (seen : bool) (acc : Z) : bool * Z :=
  match s with
  | String c r =>
      match digit_value c with
      | Some d => parse_digits r true (10 * acc + d)
      | None => (seen, acc)
      end
  | EmptyString => (seen, acc)
  end.

(** The result is the Number value of the signed integer read.  (Past
    the 20th significant digit the standard lets an implementation read
    further digits as zeros; the exact reading, which Node takes, is
    modelled.) *)
Definition parseInt (v : option string) : number :=
  let input := trim_start (ToString v) in
  let '(sign, body) :=
    match input with
    | String "-"%char r => (-1, r)
    | String "+"%char r => (1, r)
    | _ => (1, input)
    end in
  match parse_digits body false 0 with
  | (true, n) => to_double (sign * n)
  | (false, _) => NaN
  end.

(** *** Arrays *)

(** [a.includes(x)] *)
Definition includes (a : list string) (x : string) : bool :=
  bool_decide (x ∈ a).

(** [a.indexOf(x)]: first index of [x], or -1. *)
Fixpoint indexOf_from (a : list string) (x : string) (i : Z) : Z :=
  match a with
  | [] => -1
  | y :: r => if String.eqb y x then i else indexOf_from r x (i + 1)
  end.

Definition indexOf (a : list string) (x : string) : Z :=
  indexOf_from a x 0.

(** [a[i]] for an integer index: [undefined] out of range. *)
Definition index {A} (a : list A) (i : Z) : option A :=
  if i <? 0 then None else a !! Z.to_nat i.

(** Relative index resolution shared by the two arguments of [slice]:
    negative indices count from the end, everything is clamped to
    [0 .. len]. *)
Definition relative (len : Z) (x : number) : Z :=
  match x with
  | NaN => 0
  | Infinity => len
  | NegInfinity => 0
  | Int z => if z <? 0 then Z.max (len + z) 0 else Z.min z len
  end.

(** [a.slice(start, end)] *)
Definition slice {A} (a : list A) (start stop : number) : list A :=
  let len := Z.of_nat (length a) in
  let k := relative len start in
  let final := relative len stop in
  take (Z.to_nat (final - k)) (drop (Z.to_nat k) a).

(** [s.startsWith(p)] *)
Definition startsWith (s p : string) : bool := String.prefix p s.

(** [s.replace(/"/g, '\\"')]: every double quote gets a backslash. *)
Fixpoint escape_dquotes (s : string) : string :=
  match s with
  | EmptyString => EmptyString
  | String c r =>
      if Ascii.eqb c "034"%char
      then String "\" (String c (escape_dquotes r))
      else String c (escape_dquotes r)
  end.

(** *** Promises

    Only the resolution discipline matters here: a promise is a
    single-assignment cell, and [resolve] on a settled promise is a
    no-op. *)
Inductive promise (A : Type) : Type :=
| Unsettled : promise A
| Fulfilled (v : A) : promise A.
Arguments Unsettled {A}.
Arguments Fulfilled {A} v.

Definition resolve {A} (v : A) (p : promise A) : promise A :=
  match p with
  | Unsettled => Fulfilled v
  | Fulfilled _ => p
  end.

End JS.


(** ** Node: directory entries *)

Module Node.

Inductive FileType : Type := File | Directory | Symlink | Special.

(** [fs.Dirent], as returned by [readdir] with [withFileTypes]. *)
Record Dirent : Type := { name : string; file_type : FileType }.

Definition isDirectory (e : Dirent) : bool :=
  match file_type e with
  | Directory => true
  | _ => false
  end.

(** [path.join(dir, entry)] for an entry name returned by [readdir]
    (a single path segment, so no normalisation takes place). *)
Definition path_join (dir entry : string) : string := dir +:+ "/" +:+ entry.

End Node.

(** ** The agent SDK: session events and scripted sessions *)

Module Sdk.

(** [SessionEvent], a union discriminated by [type].  [parameters] holds
    the text [JSON.stringify] renders for the tool arguments; [content]
    may be [null] or [undefined]. *)
Inductive SessionEvent : Type :=
| tool_execution_start (toolName parameters : string)
| tool_execution_end
| assistant_message (content : option string)
| session_idle
| other_event (type : string).

Definition is_idle (e : SessionEvent) : bool :=
  match e with
  | session_idle => true
  | _ => false
  end.

(** The session is an opaque counterparty.  A script fixes what it does
    over its lifetime: whether each SDK call fails (and with which
    error), and which events it emits while [createSession] is in
    flight, while [send] is in flight, and after [send] has completed
    for as long as the session is alive.  Every SDK call is taken to
    settle: the promise it returns is fulfilled or rejected.  A call that
    stays pending is outside the scripts; the only wait without end they
    describe is the one for [session.idle]. *)
Record SessionScript : Type := {
  create_error : option string;
  emitted_on_create : list SessionEvent;
  send_error : option string;
  emitted_during_send : list SessionEvent;
  emitted_after_send : list SessionEvent;
  destroy_error : option string
}.

Definition emitted_after_prompt (sc : SessionScript) : list SessionEvent :=
  emitted_during_send sc ++ emitted_after_send sc.

End Sdk.

(** ** Effects and the outcome monad *)

(** The two output streams of the process. *)
Inductive Stream : Type := Stdout | Stderr.

(** Everything the script does to the outside world, in program order.
    [ChildWrite] is what a child process started by [execSync] writes to
    the stream it inherits from the script.  [Delivered]/[Dropped] record
    what became of each event the session emitted (handed to the
    registered listener, or lost for want of one); [Call_reviewSkill]
    marks entry into the review pipeline. *)
Inductive Effect : Type :=
| ConsoleError (text : string)
| ConsoleLog (text : string)
| ExecSync (command : string)
| ChildWrite (stream : Stream) (text : string)
| Readdir (dir : string)
| ClientStart
| ClientStop
| CreateSession (model : string) (streaming : bool) (tools : list string)
| SessionOn
| SessionSend (prompt : string)
| SessionDestroy
| Delivered (e : Sdk.SessionEvent)
| Dropped (e : Sdk.SessionEvent)
| Call_reviewSkill (skillName skillPath : string).

(** How an asynchronous computation ends: it returns, it throws (its
    promise rejects), or it awaits a promise that never settles. *)
Inductive Outcome (A : Type) : Type :=
| Returned (a : A)
| Threw (error : string)
| Stalled.
Arguments Returned {A} a.
Arguments Threw {A} error.
Arguments Stalled {A}.

(** A computation yields its outcome and the effects it performed on the
    way.  An exception or a stall cuts the rest of the computation short;
    the effects performed so far remain. *)
Definition M (A : Type) : Type := (Outcome A * list Effect)%type.

Definition ret {A} (a : A) : M A := (Returned a, []).

Definition bind {A B} (m : M A) (k : A → M B) : M B :=
  match m with
  | (Returned a, t) => let '(o, t') := k a in (o, t ++ t')
  | (Threw e, t) => (Threw e, t)
  | (Stalled, t) => (Stalled, t)
  end.

#[global] Instance M_ret : MRet M := @ret.
#[global] Instance M_bind : MBind M := λ A B k m, bind m k.

Definition tell (e : Effect) : M unit := (Returned (), [e]).
Definition tell_all (t : list Effect) : M unit := (Returned (), t).
Definition throw {A} (e : string) : M A := (Threw e, []).
Definition stall {A} : M A := (Stalled, []).

(** [try { m } catch (error) { h error }] *)
Definition try_catch {A} (m : M A) (h : string → M A) : M A :=
  match m with
  | (Threw e, t) => let '(o, t') := h e in (o, t ++ t')
  | _ => m
  end.

(** A call that fails according to the environment. *)
Definition fail_if (err : option string) : M unit :=
  match err with
  | Some e => throw e
  | None => ret ()
  end.

Definition outcome {A} (m : M A) : Outcome A := fst m.
Definition trace {A} (m : M A) : list Effect := snd m.

(** ** review.ts *)

Module Review.
Import Node Sdk.

(** The environment one run of the script executes in: [process.argv],
    [process.env], the absolute path [path.resolve("./skills")], the file
    system as seen by [readdir], and the behaviour of the collaborators.
    [session_script] tells how the session created for a given skill
    behaves (one session is created per skill, and the names [readdir]
    lists are distinct); the error fields say whether a call throws, and
    [execSync_output] what the command writes while it runs. *)
Record World : Type := {
  argv : list string;
  env : gmap string string;
  skills_root : string;
  readdir : string → string + list Dirent;
  client_start_error : option string;
  client_stop_error : option string;
  session_script : string → SessionScript;
  execSync_error : string → option string;
  execSync_output : string → list (Stream * string)
}.

(** *** CLI argument parsing *)

Definition args (W : World) : list string :=
  JS.slice (argv W) (JS.Int 2) JS.Infinity.

Definition dryRun (W : World) : bool :=
  JS.includes (args W) "--dry-run".

Definition limitIndex (W : World) : Z :=
  JS.indexOf (args W) "--limit".

Definition limit (W : World) : JS.number :=
  if negb (limitIndex W =? -1)
  then JS.parseInt (JS.index (args W) (limitIndex W + 1))
  else JS.Infinity.

(** *** Tools and prompt

    The two tools are registered with the session by name.  Their
    handlers run inside the SDK's own tool-call loop; the script only
    sees the [tool.execution_start]/[tool.execution_end] events. *)

Definition listDirectory : string := "list_directory".
Definition readFile : string := "read_file".

Definition reviewPrompt (skillPath : string) : string :=
  "You are an agent reviewing a skill. Your task is to explore the skill directory,
read all relevant files, and produce a one-pager improvement report.

## Skill Directory

The skill is located at: " +:+ skillPath +:+ "

## Instructions

1. Use the list_directory tool to explore the skill directory
2. Use the read_file tool to read SKILL.md and any other relevant files
3. Explore subdirectories like references/ and scripts/ if they exist
4. Read all files that seem relevant to understanding the skill

Once you have explored the skill thoroughly, produce a structured report with:

1. **Summary** - What the skill does (2-3 sentences)
2. **Strengths** - What works well (bullet points)
3. **Areas for Improvement** - Specific suggestions (bullet points)
4. **Priority Actions** - Top 3 recommended changes
5. **Code Quality** - Notes on any scripts (if applicable)

Keep the report concise but actionable. Start exploring now.".

(** *** discoverSkills *)

Definition fs_readdir (W : World) (dir : string) : M (list Dirent) :=
  tell (Readdir dir) ;;
  match readdir W dir with
  | inl err => throw err
  | inr entries => mret entries
  end.

Definition discoverSkills (W : World) (skillsDir : string) : M (list string) :=
  entries ← fs_readdir W skillsDir ;
  mret (map name
          (List.filter (λ e, isDirectory e && negb (JS.startsWith (name e) "."))
                       entries)).

(** *** The session object and the listener closure *)

(** The variables captured by the callback passed to [session.on]: the
    working text [content] and the promise [done] that [resolve]
    settles. *)
Record Listener : Type := { content : string; done : JS.promise string }.

Record Session : Type := {
  script : SessionScript;
  listener : option Listener
}.

(** The callback: four independent tests on [event.type]. *)
Definition on_event (event : SessionEvent) (l : Listener) : M Listener :=
  match event with
  | tool_execution_start toolName parameters =>
      tell (ConsoleError ("[Agent] Calling " +:+ toolName +:+ "(" +:+ parameters +:+ ")"))
  | _ => mret ()
  end ;;
  match event with
  | tool_execution_end => tell (ConsoleError "[Tool]  -> (returned)")
  | _ => mret ()
  end ;;
  l ← mret match event with
           | assistant_message c =>
               {| content := JS.nullish c ""; done := done l |}
           | _ => l
           end ;
  mret match event with
       | session_idle =>
           {| content := content l; done := JS.resolve (content l) (done l) |}
       | _ => l
       end.

(** The session emits one event: the registered listener runs, or the
    event is lost. *)
Definition emit (e : SessionEvent) (s : Session) : M Session :=
  match listener s with
  | Some l =>
      tell (Delivered e) ;;
      l' ← on_event e l ;
      mret {| script := script s; listener := Some l' |}
  | None => tell (Dropped e) ;; mret s
  end.

Fixpoint emit_all (es : list SessionEvent) (s : Session) : M Session :=
  match es with
  | [] => mret s
  | e :: es' => s' ← emit e s ; emit_all es' s'
  end.

(** [client.createSession({...})] *)
Definition createSession (sc : SessionScript)
    (model : string) (streaming : bool) (tools : list string) : M Session :=
  tell (CreateSession model streaming tools) ;;
  s ← emit_all (emitted_on_create sc) {| script := sc; listener := None |} ;
  fail_if (create_error sc) ;;
  mret s.

(** [session.on(callback)] *)
Definition session_on (s : Session) (l : Listener) : M Session :=
  tell SessionOn ;;
  mret {| script := script s; listener := Some l |}.

(** [await session.send({ prompt })] *)
Definition session_send (s : Session) (prompt : string) : M Session :=
  tell (SessionSend prompt) ;;
  s' ← emit_all (emitted_during_send (script s)) s ;
  fail_if (send_error (script s)) ;;
  mret s'.

(** [await done]: the session goes on emitting; the await completes with
    the promise's value if it is ever settled. *)
Definition await_done (s : Session) : M (string * Session) :=
  s' ← emit_all (emitted_after_send (script s)) s ;
  match done <$> listener s' with
  | Some (JS.Fulfilled report) => mret (report, s')
  | _ => stall
  end.

(** [await session.destroy()] *)
Definition session_destroy (s : Session) : M unit :=
  tell SessionDestroy ;;
  fail_if (destroy_error (script s)).

(** *** reviewSkill *)

Definition reviewSkill (client : string → SessionScript)
    (skillName skillPath : string) : M string :=
  tell (Call_reviewSkill skillName skillPath) ;;
  tell (ConsoleError (JS.nl +:+ "=== Reviewing skill: " +:+ skillName +:+ " ===" +:+ JS.nl)) ;;
  tell (ConsoleError ("Starting agent with gpt-5.2-codex..." +:+ JS.nl)) ;;
  session ← createSession (client skillName)
              "gpt-5.2-codex" false [listDirectory; readFile] ;
  session ← session_on session {| content := ""; done := JS.Unsettled |} ;
  session ← session_send session (reviewPrompt skillPath) ;
  '(report, session) ← await_done session ;
  session_destroy session ;;
  mret report.

(** *** createGitHubIssue *)

Definition ghToken (W : World) : option string :=
  JS.or (env W !! "GH_PAT") (env W !! "GH_TOKEN").

Definition tokenPrefix (W : World) : string :=
  if JS.truthy (ghToken W)
  then "GH_TOKEN=" +:+ JS.dquote +:+ JS.ToString (ghToken W) +:+ JS.dquote +:+ " "
  else "".

Definition issue_command (W : World) (title body : string) : string :=
  tokenPrefix W +:+ "gh issue create --title " +:+ JS.dquote
    +:+ JS.escape_dquotes title +:+ JS.dquote
    +:+ " --body " +:+ JS.dquote +:+ "$(cat <<'EOF'" +:+ JS.nl
    +:+ body +:+ JS.nl +:+ "EOF" +:+ JS.nl +:+ ")" +:+ JS.dquote.

(** [execSync(command, { stdio: "inherit" })]: the child shares the
    script's streams, so what it writes shows there while it runs; the
    call returns once the command has ended, which a command is taken to
    do, and throws when the command failed. *)
Definition child_writes (W : World) (command : string) : list Effect :=
  map (λ w, ChildWrite w.1 w.2) (execSync_output W command).

Definition execSync (W : World) (command : string) : M unit :=
  tell (ExecSync command) ;;
  tell_all (child_writes W command) ;;
  fail_if (execSync_error W command).

Definition createGitHubIssue (W : World) (skillName report : string) : M unit :=
  let title := "Skill Review: " +:+ skillName in
  let body := report in
  try_catch
    (execSync W (issue_command W title body) ;;
     tell (ConsoleError ("[Issue] Created issue for " +:+ skillName)))
    (λ error,
      tell (ConsoleError ("[Error] Failed to create issue for " +:+ skillName
                          +:+ ": " +:+ error))).

(** *** main *)

(** [for (const x of l) body(x)] *)
Fixpoint for_of {A} (l : list A) (body : A → M unit) : M unit :=
  match l with
  | [] => mret ()
  | x :: r => body x ;; for_of r body
  end.

(** The body of the loop over the skills. *)
Definition review_and_publish (W : World) (skillsDir skillName : string) : M unit :=
  let skillPath := path_join skillsDir skillName in
  try_catch
    (report ← reviewSkill (session_script W) skillName skillPath ;
     tell (ConsoleLog (JS.nl +:+ "--- REPORT: " +:+ skillName +:+ " ---" +:+ JS.nl)) ;;
     tell (ConsoleLog report) ;;
     tell (ConsoleLog (JS.nl +:+ "--- END REPORT ---" +:+ JS.nl)) ;;
     if dryRun W
     then tell (ConsoleError
                  ("[dry-run] Would create issue:" +:+ JS.nl
                   +:+ "  gh issue create --title " +:+ JS.dquote
                   +:+ "Skill Review: " +:+ skillName +:+ JS.dquote
                   +:+ " --body " +:+ JS.dquote +:+ "..." +:+ JS.dquote))
     else createGitHubIssue W skillName report)
    (λ error,
      tell (ConsoleError ("[Error] Failed to review skill " +:+ skillName
                          +:+ ": " +:+ error))).

Definition main (W : World) : M unit :=
  let skillsDir := skills_root W in
  tell (ConsoleError ("Discovering skills in " +:+ skillsDir +:+ "...")) ;;
  skills ← discoverSkills W skillsDir ;
  skills ← (if JS.lt_Infinity (limit W)
            then
              let skills := JS.slice skills (JS.Int 0) (limit W) in
              tell (ConsoleError ("Limited to " +:+ JS.number_to_string (limit W)
                                  +:+ " skill(s)")) ;;
              mret skills
            else mret skills) ;
  tell (ConsoleError ("Found "
                      +:+ JS.number_to_string (JS.Int (Z.of_nat (length skills)))
                      +:+ " skill(s) to review" +:+ JS.nl)) ;;
  tell ClientStart ;;
  fail_if (client_start_error W) ;;
  for_of skills (review_and_publish W skillsDir) ;;
  tell ClientStop ;;
  fail_if (client_stop_error W) ;;
  tell (ConsoleError (JS.nl +:+ "Done.")).

End Review.

(** ** Vocabulary of the properties *)

Module Props.
Import Node Sdk Review.

(** The listener as [reviewSkill] creates it. *)
Definition fresh : Listener := {| content := ""; done := JS.Unsettled |}.

(** The listener after the callback has run on one event, and on a
    sequence of events in emission order. *)
Definition next_listener (l : Listener) (e : SessionEvent) : Listener :=
  match outcome (on_event e l) with
  | Returned l' => l'
  | _ => l
  end.

Definition run_listener (es : list SessionEvent) (l : Listener) : Listener :=
  fold_left next_listener es l.

(** The text an event carries if it is an [assistant.message]; a missing
    content counts as empty text. *)
Definition message_text (e : SessionEvent) : option string :=
  match e with
  | assistant_message (Some text) => Some text
  | assistant_message None => Some ""
  | _ => None
  end.

(** Text of the last [assistant.message] of a sequence, empty if there is
    none. *)
Definition last_assistant_text (es : list SessionEvent) : string :=
  default "" (last (omap message_text es)).

Definition no_idle (es : list SessionEvent) : Prop :=
  Forall (λ e, e ≠ session_idle) es.

(** Number of events at which the promise goes from unsettled to
    fulfilled while the callback runs over [es]. *)
Definition settles (before after : JS.promise string) : nat :=
  match before, after with
  | JS.Unsettled, JS.Fulfilled _ => 1
  | _, _ => 0
  end.

Fixpoint settlements (es : list SessionEvent) (l : Listener) : nat :=
  match es with
  | [] => 0
  | e :: es' =>
      (settles (done l) (done (next_listener l e))
       + settlements es' (next_listener l e))%nat
  end.

(** Projections of a trace. *)
Definition reviewed (t : list Effect) : list string :=
  omap (λ e, match e with Call_reviewSkill n _ => Some n | _ => None end) t.

Definition delivered (t : list Effect) : list SessionEvent :=
  omap (λ e, match e with Delivered ev => Some ev | _ => None end) t.

Definition dropped (t : list Effect) : list SessionEvent :=
  omap (λ e, match e with Dropped ev => Some ev | _ => None end) t.

Definition executed (t : list Effect) : list string :=
  omap (λ e, match e with ExecSync c => Some c | _ => None end) t.

Definition sdk_calls (t : list Effect) : list Effect :=
  List.filter (λ e, match e with
                    | CreateSession _ _ _ | SessionOn | SessionSend _
                    | SessionDestroy => true
                    | _ => false
                    end) t.

(** Effects that event delivery itself can produce. *)
Definition is_delivery (e : Effect) : Prop :=
  match e with
  | ConsoleError _ | Delivered _ | Dropped _ => True
  | _ => False
  end.

(** Effects that stand for lost events. *)
Definition is_delivery_drop (e : Effect) : Prop :=
  match e with
  | Dropped _ => True
  | _ => False
  end.

(** Effects the callback can produce. *)
Definition is_delivery_log (e : Effect) : Prop :=
  match e with
  | ConsoleError _ => True
  | _ => False
  end.

(** The claim that a created session is destroyed on every path on which
    [reviewSkill] completes. *)
Definition released_on_every_path : Prop :=
  ∀ client skillName skillPath,
    create_error (client skillName) = None →
    outcome (reviewSkill client skillName skillPath) ≠ Stalled →
    SessionDestroy ∈ trace (reviewSkill client skillName skillPath).

(** The claim that a numeric limit N selects exactly the first N skills,
    read literally: the flag's value is the decimal numeral of an
    integer N. *)
Definition numeric_limit_selects_first_N : Prop :=
  ∀ W found value N,
    outcome (discoverSkills W (skills_root W)) = Returned found →
    client_start_error W = None →
    client_stop_error W = None →
    (∀ n, outcome (reviewSkill (session_script W) n
                               (path_join (skills_root W) n)) ≠ Stalled) →
    (∃ before after,
        args W = before ++ "--limit" :: value :: after
        ∧ ("--limit" ∉ before)) →
    value = pretty N →
    reviewed (trace (main W)) = take (Z.to_nat N) found.

(** The claim that [GH_PAT] is taken whenever it is present, and
    [GH_TOKEN] otherwise. *)
Definition first_present_wins : Prop :=
  ∀ W,
    match env W !! "GH_PAT", env W !! "GH_TOKEN" with
    | Some pat, _ => ghToken W = Some pat
    | None, Some token => ghToken W = Some token
    | None, None => tokenPrefix W = ""
    end.

(** A name that starts with a dot. *)
Definition hidden (n : string) : Prop := ∃ rest, n = String "."%char rest.

(** Review of a skill runs to completion (returns or throws). *)
Definition completes (W : World) (skillsDir skillName : string) : Prop :=
  outcome (reviewSkill (session_script W) skillName
                       (path_join skillsDir skillName)) ≠ Stalled.

(** The value following the first [--limit] flag, if the flag is given. *)
Definition limit_flag (W : World) (value : option string) : Prop :=
  ∃ before after,
    args W = before ++ "--limit" :: after
    ∧ ("--limit" ∉ before)
    ∧ value = head after.

(** Decimal numerals: non-empty strings of digits, read positionally. *)
Definition is_digit (c : ascii) : bool :=
  ((48 <=? nat_of_ascii c)%nat && (nat_of_ascii c <=? 57)%nat)%bool.

Fixpoint all_digits (s : string) : bool :=
  match s with
  | EmptyString => true
  | String c r => is_digit c && all_digits r
  end.

Definition numeral (s : string) : Prop := s ≠ "" ∧ all_digits s = true.

Fixpoint numeral_value (s : string) : Z :=
  match s with
  | EmptyString => 0
  | String c r =>
      (Z.of_nat (nat_of_ascii c) - 48) * 10 ^ Z.of_nat (String.length r)
      + numeral_value r
  end.

(** A variable of the environment that is set to a non-empty value. *)
Definition nonempty_var (W : World) (k : string) : option string :=
  match env W !! k with
  | Some (String c r) => Some (String c r)
  | _ => None
  end.

Definition credential_prefix (v : string) : string :=
  "GH_TOKEN=" +:+ JS.dquote +:+ v +:+ JS.dquote +:+ " ".

End Props.

(** ** Scenarios

    Concrete scripts and worlds on which the properties are exercised. *)

Module Scenarios.
Import Node Sdk Review Props.

Definition dir (n : string) : Dirent := {| name := n; file_type := Directory |}.

(** A session that answers once and goes idle. *)
Definition answers (text : string) : SessionScript :=
  {| create_error := None;
     emitted_on_create := [other_event "session.start"];
     send_error := None;
     emitted_during_send :=
       [tool_execution_start "list_directory" "{}"; tool_execution_end];
     emitted_after_send := [assistant_message (Some text); session_idle];
     destroy_error := None |}.

(** A session that goes idle without having said anything. *)
Definition silent : SessionScript :=
  {| create_error := None;
     emitted_on_create := [];
     send_error := None;
     emitted_during_send := [];
     emitted_after_send := [session_idle];
     destroy_error := None |}.

(** A session that goes idle twice, with a message in between. *)
Definition idles_twice : SessionScript :=
  {| create_error := None;
     emitted_on_create := [];
     send_error := None;
     emitted_during_send := [assistant_message (Some "draft")];
     emitted_after_send :=
       [assistant_message (Some "report"); session_idle;
        assistant_message (Some "afterthought"); session_idle];
     destroy_error := None |}.

(** A session whose last message before idle has no content. *)
Definition trailing_null : SessionScript :=
  {| create_error := None;
     emitted_on_create := [];
     send_error := None;
     emitted_during_send := [];
     emitted_after_send :=
       [assistant_message (Some "report"); assistant_message None; session_idle];
     destroy_error := None |}.

(** A session whose [send] rejects. *)
Definition send_fails : SessionScript :=
  {| create_error := None;
     emitted_on_create := [];
     send_error := Some "send failed";
     emitted_during_send := [];
     emitted_after_send := [];
     destroy_error := None |}.

(** The numeral made of [n] nines. *)
Fixpoint nines (n : nat) : string :=
  match n with
  | O => ""
  | S n => String "9" (nines n)
  end.

(** A skills directory with a hidden directory and two skills. *)
Definition listing : list Dirent := [dir ".git"; dir "alpha"; dir "beta"].

Definition world (cli : list string) (vars : gmap string string)
    (sessions : string → SessionScript) (gh_error : option string) : World :=
  {| argv := "node" :: "review.ts" :: cli;
     env := vars;
     skills_root := "/repo/skills";
     readdir := λ _, inr listing;
     client_start_error := None;
     client_stop_error := None;
     session_script := sessions;
     execSync_error := λ _, gh_error;
     execSync_output := λ _, [] |}.

(** No flags, no credentials: [alpha]'s session fails to take the prompt,
    [beta]'s reports, and the issue tracker refuses. *)
Definition W_mixed : World :=
  world [] ∅
        (λ n, if String.eqb n "alpha" then send_fails else answers "report")
        (Some "exit status 1").

Definition W_limit_1 : World :=
  world ["--limit"; "1"] ∅ (λ _, answers "report") None.

Definition W_limit_minus_1 : World :=
  world ["--limit"; "-1"] ∅ (λ _, silent) None.

Definition W_limit_word : World :=
  world ["--limit"; "all"] ∅ (λ _, silent) None.

(** Preview mode, with sessions that produce the empty report. *)
Definition W_dry_run : World :=
  world ["--dry-run"] ∅ (λ _, silent) (Some "exit status 1").

(** [GH_PAT] is set, but to the empty string. *)
Definition W_empty_pat : World :=
  world [] {[ "GH_PAT" := ""; "GH_TOKEN" := "tok" ]} (λ _, silent) None.

End Scenarios.

(** ** The sandboxed tools *)

Module Tools.
Import Node Review.

(** One element of the array the [list_directory] handler returns. *)
Record Entry : Type := { name : string; type : string }.

(** The handler of [list_directory]: [readdir] with file types, each
    entry mapped to its name and to ["directory"] or ["file"]. *)
Definition listDirectory_handler (W : World) (dirPath : string) : M (list Entry) :=
  entries ← fs_readdir W dirPath ;
  mret (map (λ e, {| name := Node.name e;
                     type := if isDirectory e then "directory" else "file" |})
            entries).

End Tools.

(** ** Vocabulary of the further properties *)

Module Coverage.
Import Node Sdk Review Props.

(** The events the callback reacts to other than by logging. *)
Definition relevant (e : SessionEvent) : bool :=
  match e with
  | assistant_message _ | session_idle => true
  | _ => false
  end.

(** What a trace writes to standard output, and its calls on the client. *)
Definition printed (t : list Effect) : list string :=
  omap (λ e, match e with ConsoleLog text => Some text | _ => None end) t.

Definition client_calls (t : list Effect) : list Effect :=
  List.filter (λ e, match e with
                    | ClientStart | ClientStop => true
                    | _ => false
                    end) t.

(** Everything that reaches standard output: what the script prints and
    what its child processes write there. *)
Definition stdout (t : list Effect) : list string :=
  omap (λ e, match e with
             | ConsoleLog text | ChildWrite Stdout text => Some text
             | _ => None
             end) t.

(** What a command writes to standard output while it runs. *)
Definition child_stdout (W : World) (command : string) : list string :=
  stdout (child_writes W command).

(** Effects of a child process. *)
Definition child_effect (e : Effect) : Prop :=
  match e with
  | ChildWrite _ _ => True
  | _ => False
  end.

(** The report a skill's review returns, if it returns. *)
Definition report_of (W : World) (skillsDir skillName : string) : option string :=
  match outcome (reviewSkill (session_script W) skillName
                             (path_join skillsDir skillName)) with
  | Returned report => Some report
  | _ => None
  end.

(** The delimited block printed for a report. *)
Definition report_block (skillName report : string) : list string :=
  [JS.nl +:+ "--- REPORT: " +:+ skillName +:+ " ---" +:+ JS.nl;
   report;
   JS.nl +:+ "--- END REPORT ---" +:+ JS.nl].

(** Every double quote of [s] comes right after a backslash, [prev]
    being the character before [s]. *)
Fixpoint quotes_escaped (prev : ascii) (s : string) : bool :=
  match s with
  | EmptyString => true
  | String c r =>
      (if Ascii.eqb c "034"%char then Ascii.eqb prev "\"%char else true)
      && quotes_escaped c r
  end.

Fixpoint has_dquote (s : string) : bool :=
  match s with
  | EmptyString => false
  | String c r => Ascii.eqb c "034"%char || has_dquote r
  end.

(** Reading an escaped string back: a backslash in front of a double
    quote is dropped. *)
Fixpoint unescape_dquotes (s : string) : string :=
  match s with
  | EmptyString => EmptyString
  | String c r =>
      match r with
      | String d r' =>
          if (Ascii.eqb c "\"%char && Ascii.eqb d "034"%char)%bool
          then String d (unescape_dquotes r')
          else String c (unescape_dquotes r)
      | EmptyString => String c EmptyString
      end
  end.

(** Strings made of white space only: [trim_start] leaves nothing of
    them.  Strings that do not go on with a digit, or with a sign. *)
Definition white_space_only (s : string) : Prop := JS.trim_start s = "".

Definition no_leading_digit (s : string) : bool :=
  match s with
  | EmptyString => true
  | String c _ => negb (is_digit c)
  end.

Definition no_leading_sign (s : string) : bool :=
  match s with
  | EmptyString => true
  | String c _ => negb (Ascii.eqb c "+"%char || Ascii.eqb c "-"%char)
  end.

(** The three ways a number can be signed. *)
Inductive Sign : Type := NoSign | Plus | Minus.

Definition sign_text (sg : Sign) : string :=
  match sg with
  | NoSign => ""
  | Plus => "+"
  | Minus => "-"
  end.

Definition sign_factor (sg : Sign) : Z :=
  match sg with
  | Minus => -1
  | _ => 1
  end.

(** What a trace writes to the error stream, and the line an event
    accounts for there. *)
Definition logged (t : list Effect) : list string :=
  omap (λ e, match e with ConsoleError text => Some text | _ => None end) t.

Definition tool_line (e : SessionEvent) : option string :=
  match e with
  | tool_execution_start toolName parameters =>
      Some ("[Agent] Calling " +:+ toolName +:+ "(" +:+ parameters +:+ ")")
  | tool_execution_end => Some "[Tool]  -> (returned)"
  | _ => None
  end.

(** Effects [reviewSkill] can produce, and effects [main] produces before
    it starts the client. *)
Definition review_effect (e : Effect) : Prop :=
  match e with
  | ConsoleLog _ | ExecSync _ | ChildWrite _ _ | Readdir _
  | ClientStart | ClientStop => False
  | _ => True
  end.

Definition setup_effect (e : Effect) : Prop :=
  match e with
  | ConsoleError _ | Readdir _ => True
  | _ => False
  end.

(** The skills [main] loops over, out of those discovered. *)
Definition selected (W : World) (found : list string) : list string :=
  if JS.lt_Infinity (limit W) then JS.slice found (JS.Int 0) (limit W) else found.

End Coverage.

(** ** Further scenarios *)

Module CoverageScenarios.
Import Node Sdk Review Props Scenarios.

(** A session that cannot be created. *)
Definition create_fails : SessionScript :=
  {| create_error := Some "no session";
     emitted_on_create := [other_event "session.error"];
     send_error := None;
     emitted_during_send := [];
     emitted_after_send := [];
     destroy_error := None |}.

(** A session that answers but never goes idle. *)
Definition never_idle : SessionScript :=
  {| create_error := None;
     emitted_on_create := [];
     send_error := None;
     emitted_during_send := [assistant_message (Some "report")];
     emitted_after_send := [tool_execution_end];
     destroy_error := None |}.

(** A session that reports and goes idle, and then cannot be destroyed. *)
Definition destroy_fails : SessionScript :=
  {| create_error := None;
     emitted_on_create := [];
     send_error := None;
     emitted_during_send := [];
     emitted_after_send := [assistant_message (Some "report"); session_idle];
     destroy_error := Some "destroy failed" |}.

(** The answer and the idle event arrive while [send] is in flight, and
    no tool is called. *)
Definition answers_early (text : string) : SessionScript :=
  {| create_error := None;
     emitted_on_create := [];
     send_error := None;
     emitted_during_send := [assistant_message (Some text); session_idle];
     emitted_after_send := [];
     destroy_error := None |}.

(** The skills directory does not exist. *)
Definition W_no_skills_dir : World :=
  {| argv := ["node"; "review.ts"];
     env := ∅;
     skills_root := "/repo/skills";
     readdir := λ _, inl "ENOENT";
     client_start_error := None;
     client_stop_error := None;
     session_script := λ _, silent;
     execSync_error := λ _, None;
     execSync_output := λ _, [] |}.

(** The client does not start. *)
Definition W_client_down : World :=
  {| argv := ["node"; "review.ts"];
     env := ∅;
     skills_root := "/repo/skills";
     readdir := λ _, inr listing;
     client_start_error := Some "no client";
     client_stop_error := None;
     session_script := λ _, silent;
     execSync_error := λ _, None;
     execSync_output := λ _, [] |}.

(** The client does not stop. *)
Definition W_client_stuck : World :=
  {| argv := ["node"; "review.ts"];
     env := ∅;
     skills_root := "/repo/skills";
     readdir := λ _, inr listing;
     client_start_error := None;
     client_stop_error := Some "still running";
     session_script := λ _, silent;
     execSync_error := λ _, None;
     execSync_output := λ _, [] |}.

(** [alpha] fails to take the prompt and [beta] reports; the issue
    tracker accepts, and [gh] prints the address of the new issue. *)
Definition W_gh_answers : World :=
  {| argv := ["node"; "review.ts"];
     env := ∅;
     skills_root := "/repo/skills";
     readdir := λ _, inr listing;
     client_start_error := None;
     client_stop_error := None;
     session_script :=
       λ n, if String.eqb n "alpha" then send_fails else answers "report";
     execSync_error := λ _, None;
     execSync_output := λ _, [(Stdout, "https://example.test/issues/1")] |}.

(** [alpha]'s session never goes idle. *)
Definition W_alpha_hangs : World :=
  world [] ∅ (λ n, if String.eqb n "alpha" then never_idle else silent) None.

(** [beta]'s session cannot be destroyed. *)
Definition W_beta_leaks : World :=
  world [] ∅ (λ n, if String.eqb n "beta" then destroy_fails else silent) None.

(** The limit is given twice. *)
Definition W_two_limits : World :=
  world ["--limit"; "1"; "--limit"; "2"] ∅ (λ _, silent) None.

End CoverageScenarios.

(** ** The outcome monad *)

(** Traces are compared up to the bracketing of [++]. *)
Ltac trace_eq :=
  repeat (progress (simpl; rewrite <- ?app_assoc)); reflexivity.

Section Monad.
Context {A B : Type}.

Lemma bind_returned (m : M A) (k : A → M B) (a : A) :
  outcome m = Returned a →
  m ≫= k = (outcome (k a), trace m ++ trace (k a)).
Proof.
  destruct m as [o t]; simpl; intros ->.
  unfold mbind, M_bind, bind. by destruct (k a).
Qed.

Lemma bind_threw (m : M A) (k : A → M B) (e : string) :
  outcome m = Threw e → m ≫= k = (Threw e, trace m).
Proof. destruct m as [o t]; simpl; by intros ->. Qed.

Lemma bind_stalled (m : M A) (k : A → M B) :
  outcome m = Stalled → m ≫= k = (Stalled, trace m).
Proof. destruct m as [o t]; simpl; by intros ->. Qed.

Lemma bind_ret (a : A) (k : A → M B) : (mret a ≫= k) = k a.
Proof. unfold mret, M_ret, mbind, M_bind, ret, bind. by destruct (k a). Qed.

Lemma bind_tell (e : Effect) (m : M B) :
  (tell e ;; m) = (outcome m, e :: trace m).
Proof. unfold tell, mbind, M_bind, bind. by destruct m. Qed.

Lemma M_eta (m : M A) : m = (outcome m, trace m).
Proof. by destruct m. Qed.

End Monad.

(** ** The listener callback *)

Section Listener.
Import Sdk Review Props.

Lemma on_event_returns e l :
  outcome (on_event e l) = Returned (next_listener l e).
Proof. by destruct e. Qed.

Lemma on_event_trace e l : Forall is_delivery (trace (on_event e l)).
Proof. destruct e; simpl; repeat constructor. Qed.

Lemma next_listener_message c l :
  next_listener l (assistant_message c)
  = {| content := JS.nullish c ""; done := done l |}.
Proof. reflexivity. Qed.

Lemma next_listener_idle l :
  next_listener l session_idle
  = {| content := content l; done := JS.resolve (content l) (done l) |}.
Proof. reflexivity. Qed.

Lemma next_listener_done l e :
  e ≠ session_idle → done (next_listener l e) = done l.
Proof. by destruct e. Qed.

Lemma next_listener_content l e :
  content (next_listener l e) = default (content l) (message_text e).
Proof. by destruct e as [| |[]| |]. Qed.

Lemma run_listener_app es1 es2 l :
  run_listener (es1 ++ es2) l = run_listener es2 (run_listener es1 l).
Proof. apply fold_left_app. Qed.

Lemma run_listener_cons e es l :
  run_listener (e :: es) l = run_listener es (next_listener l e).
Proof. reflexivity. Qed.

(** The working text is the last message seen so far. *)
Lemma run_listener_content es l :
  content (run_listener es l)
  = default (content l) (last (omap message_text es)).
Proof.
  revert l; induction es as [|e es IH]; intros l; [done|].
  rewrite run_listener_cons, IH, next_listener_content.
  change (omap message_text (e :: es))
    with (match message_text e with
          | Some y => y :: omap message_text es
          | None => omap message_text es
          end).
  destruct (message_text e) as [text|]; simpl; [|done].
  destruct (omap message_text es) as [|x xs] eqn:E; [done|].
  rewrite (last_cons text). by destruct (last (x :: xs)).
Qed.

(** Without an idle event the promise is left alone. *)
Lemma run_listener_no_idle es l :
  no_idle es → done (run_listener es l) = done l.
Proof.
  revert l; induction es as [|e es IH]; intros l Hes; [done|].
  inversion Hes; subst.
  by rewrite run_listener_cons, IH, next_listener_done.
Qed.

(** A fulfilled promise keeps its value whatever arrives. *)
Lemma run_listener_latched es l v :
  done l = JS.Fulfilled v → done (run_listener es l) = JS.Fulfilled v.
Proof.
  revert l; induction es as [|e es IH]; intros l Hl; [done|].
  rewrite run_listener_cons. apply IH.
  destruct e; simpl; try done. by rewrite Hl.
Qed.

Lemma run_listener_first_idle pre post l :
  no_idle pre → done l = JS.Unsettled →
  done (run_listener (pre ++ session_idle :: post) l)
  = JS.Fulfilled (default (content l) (last (omap message_text pre))).
Proof.
  intros Hpre Hl.
  rewrite run_listener_app, run_listener_cons.
  apply run_listener_latched.
  rewrite next_listener_idle; simpl.
  by rewrite run_listener_no_idle, Hl, run_listener_content.
Qed.

Lemma settlements_app es1 es2 l :
  settlements (es1 ++ es2) l
  = (settlements es1 l + settlements es2 (run_listener es1 l))%nat.
Proof.
  revert l; induction es1 as [|e es IH]; intros l; [done|].
  simpl. rewrite IH. unfold run_listener; simpl. lia.
Qed.

Lemma settlements_no_idle es l : no_idle es → settlements es l = 0%nat.
Proof.
  revert l; induction es as [|e es IH]; intros l Hes; [done|].
  inversion Hes; subst. simpl.
  rewrite IH by done. rewrite next_listener_done by done.
  by destruct (done l).
Qed.

Lemma settlements_latched es l v :
  done l = JS.Fulfilled v → settlements es l = 0%nat.
Proof.
  revert l; induction es as [|e es IH]; intros l Hl; [done|].
  simpl. rewrite IH.
  - by rewrite Hl.
  - change (next_listener l e) with (run_listener [e] l).
    by apply run_listener_latched.
Qed.

End Listener.

(** ** The scripted session *)

Section Session.
Import Sdk Review Props.

Lemma omap_none_Forall {X Y} (f : X → option Y) (P : X → Prop) (t : list X) :
  (∀ x, P x → f x = None) → Forall P t → omap f t = [].
Proof.
  intros Hf; induction 1 as [|x t Hx _ IH]; [done|].
  change (omap f (x :: t))
    with (match f x with Some y => y :: omap f t | None => omap f t end).
  by rewrite (Hf x Hx).
Qed.

Lemma pair_bind_returned {A B} (a : A) (t : list Effect) (k : A → M B) :
  ((Returned a, t) ≫= k) = (outcome (k a), t ++ trace (k a)).
Proof. by rewrite (bind_returned (Returned a, t) k a). Qed.

Lemma emit_listening sc l e :
  emit e {| script := sc; listener := Some l |}
  = (Returned {| script := sc; listener := Some (next_listener l e) |},
     Delivered e :: trace (on_event e l)).
Proof. by destruct e. Qed.

Lemma emit_deaf sc e :
  emit e {| script := sc; listener := None |}
  = (Returned {| script := sc; listener := None |}, [Dropped e]).
Proof. reflexivity. Qed.

Lemma emit_all_cons e es s :
  emit_all (e :: es) s = (emit e s ≫= emit_all es).
Proof. reflexivity. Qed.

Lemma emit_all_listening sc l es :
  outcome (emit_all es {| script := sc; listener := Some l |})
  = Returned {| script := sc; listener := Some (run_listener es l) |}.
Proof.
  revert l; induction es as [|e es IH]; intros l; [done|].
  rewrite emit_all_cons, emit_listening, pair_bind_returned.
  apply IH.
Qed.

Lemma emit_all_deaf sc es :
  emit_all es {| script := sc; listener := None |}
  = (Returned {| script := sc; listener := None |}, map Dropped es).
Proof.
  induction es as [|e es IH]; [done|].
  by rewrite emit_all_cons, emit_deaf, pair_bind_returned, IH.
Qed.

Lemma emit_all_trace es s : Forall is_delivery (trace (emit_all es s)).
Proof.
  revert s; induction es as [|e es IH]; intros [sc [l|]]; try by constructor.
  - rewrite emit_all_cons, emit_listening, pair_bind_returned. simpl.
    constructor; [done|]. apply Forall_app; split; [|apply IH].
    apply on_event_trace.
  - rewrite emit_all_deaf. by apply Forall_fmap, Forall_true.
Qed.

(** A registered listener receives every event, in emission order, and
    none is lost. *)
Lemma emit_all_delivered sc l es :
  delivered (trace (emit_all es {| script := sc; listener := Some l |})) = es.
Proof.
  revert l; induction es as [|e es IH]; intros l; [done|].
  rewrite emit_all_cons, emit_listening, pair_bind_returned. simpl.
  unfold delivered in *. rewrite omap_app, IH.
  rewrite (omap_none_Forall _ is_delivery_log); [done| |].
  - by intros [].
  - destruct e; simpl; repeat constructor.
Qed.

Lemma emit_all_dropped sc l es :
  dropped (trace (emit_all es {| script := sc; listener := Some l |})) = [].
Proof.
  revert l; induction es as [|e es IH]; intros l; [done|].
  rewrite emit_all_cons, emit_listening, pair_bind_returned. simpl.
  unfold dropped in *. rewrite omap_app, IH.
  rewrite (omap_none_Forall _ is_delivery_log); [done| |].
  - by intros [].
  - destruct e; simpl; repeat constructor.
Qed.

End Session.

(** ** reviewSkill, step by step *)

Section ReviewSkill.
Import Sdk Review Props.

Variable client : string → SessionScript.
Variables skillName skillPath : string.

Let sc := client skillName.
Let deaf : Session := {| script := sc; listener := None |}.
Let listening (l : Listener) : Session := {| script := sc; listener := Some l |}.

(** The listener once [send] has completed, and at the end of the
    session. *)
Let l_sent : Listener := run_listener (emitted_during_send sc) fresh.
Let l_end : Listener := run_listener (emitted_after_send sc) l_sent.

(** Everything up to the completion of [send]. *)
Let opening : list Effect :=
  [Call_reviewSkill skillName skillPath;
   ConsoleError (JS.nl +:+ "=== Reviewing skill: " +:+ skillName +:+ " ===" +:+ JS.nl);
   ConsoleError ("Starting agent with gpt-5.2-codex..." +:+ JS.nl);
   CreateSession "gpt-5.2-codex" false [listDirectory; readFile]]
  ++ map Dropped (emitted_on_create sc).

Let prompted : list Effect :=
  opening ++ [SessionOn; SessionSend (reviewPrompt skillPath)]
  ++ trace (emit_all (emitted_during_send sc) (listening fresh)).

Let awaited : list Effect :=
  prompted ++ trace (emit_all (emitted_after_send sc) (listening l_sent)).

Lemma l_end_eq : l_end = run_listener (emitted_after_prompt sc) fresh.
Proof. unfold l_end, l_sent, emitted_after_prompt. by rewrite run_listener_app. Qed.

Lemma createSession_eq model streaming tools :
  createSession sc model streaming tools
  = (match create_error sc with
     | Some err => Threw err
     | None => Returned deaf
     end,
     CreateSession model streaming tools :: map Dropped (emitted_on_create sc)).
Proof.
  unfold createSession. rewrite bind_tell, emit_all_deaf, pair_bind_returned.
  destruct (create_error sc); simpl; by rewrite app_nil_r.
Qed.

Lemma session_send_eq l prompt :
  session_send (listening l) prompt
  = (match send_error sc with
     | Some err => Threw err
     | None => Returned (listening (run_listener (emitted_during_send sc) l))
     end,
     SessionSend prompt
       :: trace (emit_all (emitted_during_send sc) (listening l))).
Proof.
  unfold session_send. rewrite bind_tell. simpl script.
  rewrite (bind_returned _ _ _ (emit_all_listening sc l _)).
  destruct (send_error sc); simpl; by rewrite app_nil_r.
Qed.

Lemma await_done_eq l :
  await_done (listening l)
  = (match done (run_listener (emitted_after_send sc) l) with
     | JS.Fulfilled report =>
         Returned (report, listening (run_listener (emitted_after_send sc) l))
     | JS.Unsettled => Stalled
     end,
     trace (emit_all (emitted_after_send sc) (listening l))).
Proof.
  unfold await_done. simpl script.
  rewrite (bind_returned _ _ _ (emit_all_listening sc l _)). simpl.
  destruct (done _); simpl; by rewrite app_nil_r.
Qed.

Lemma session_destroy_eq s :
  session_destroy s
  = (match destroy_error (script s) with
     | Some err => Threw err
     | None => Returned ()
     end, [SessionDestroy]).
Proof.
  unfold session_destroy. rewrite bind_tell.
  by destruct (destroy_error (script s)).
Qed.

(** [reviewSkill] when the session cannot be created. *)
Lemma reviewSkill_not_created err :
  create_error sc = Some err →
  reviewSkill client skillName skillPath = (Threw err, opening).
Proof.
  intros Hc. unfold reviewSkill. rewrite !bind_tell.
  fold sc. rewrite createSession_eq, Hc. reflexivity.
Qed.

(** [reviewSkill] once the session exists: the four ways it can end. *)
Lemma reviewSkill_created :
  create_error sc = None →
  reviewSkill client skillName skillPath
  = match send_error sc with
    | Some err => (Threw err, prompted)
    | None =>
        match done l_end with
        | JS.Unsettled => (Stalled, awaited)
        | JS.Fulfilled report =>
            (match destroy_error sc with
             | Some err => Threw err
             | None => Returned report
             end, awaited ++ [SessionDestroy])
        end
    end.
Proof.
  intros Hc. unfold reviewSkill. rewrite !bind_tell.
  fold sc. rewrite createSession_eq, Hc, pair_bind_returned. cbv beta.
  change (session_on deaf {| content := ""; done := JS.Unsettled |})
    with (Returned (listening fresh), [SessionOn]).
  rewrite pair_bind_returned. cbv beta. rewrite session_send_eq.
  unfold awaited, prompted, opening.
  destruct (send_error sc) as [err|]; [trace_eq|].
  simpl. fold l_sent. rewrite await_done_eq. fold l_end.
  destruct (done l_end) as [|report]; [trace_eq|].
  simpl. rewrite session_destroy_eq. simpl script.
  destruct (destroy_error sc); trace_eq.
Qed.

End ReviewSkill.

Section ReviewSkillOutcome.
Import Sdk Review Props.

(** How [reviewSkill] ends, as a function of the script. *)
Lemma reviewSkill_outcome client skillName skillPath :
  create_error (client skillName) = None →
  outcome (reviewSkill client skillName skillPath)
  = match send_error (client skillName) with
    | Some err => Threw err
    | None =>
        match done (run_listener (emitted_after_prompt (client skillName)) fresh) with
        | JS.Unsettled => Stalled
        | JS.Fulfilled report =>
            match destroy_error (client skillName) with
            | Some err => Threw err
            | None => Returned report
            end
        end
    end.
Proof.
  intros Hc. rewrite (reviewSkill_created _ _ _ Hc). cbv zeta.
  rewrite l_end_eq.
  destruct (send_error _); [done|]. by destruct (done _).
Qed.

Lemma reviewSkill_reviewed client skillName skillPath :
  reviewed (trace (reviewSkill client skillName skillPath)) = [skillName].
Proof.
  assert (Hd : ∀ es s, reviewed (trace (emit_all es s)) = []).
  { intros. apply (omap_none_Forall _ is_delivery); [by intros []|].
    apply emit_all_trace. }
  assert (Hm : ∀ es, reviewed (map Dropped es) = []).
  { intros. apply (omap_none_Forall _ is_delivery); [by intros []|].
    by apply Forall_fmap, Forall_true. }
  destruct (create_error (client skillName)) as [err|] eqn:Hc.
  - rewrite (reviewSkill_not_created _ _ _ _ Hc). simpl. by rewrite Hm.
  - rewrite (reviewSkill_created _ _ _ Hc). cbv zeta.
    destruct (send_error _); [|destruct (done _)]; simpl;
      unfold reviewed in *; rewrite ?omap_app, ?Hd, ?Hm; simpl;
      by rewrite ?omap_app, ?Hd, ?Hm.
Qed.

End ReviewSkillOutcome.

(** ** Properties of the session controller *)

Section Controller.
Import Sdk Review Props.

(** C1. When the session's events end in a single [session.idle],
    [reviewSkill] returns the text of the last [assistant.message] that
    came before it; with no such message it returns the empty text
    instead of failing. *)
Theorem reviewSkill_returns_last_message client skillName skillPath pre :
  create_error (client skillName) = None →
  send_error (client skillName) = None →
  destroy_error (client skillName) = None →
  emitted_after_prompt (client skillName) = pre ++ [session_idle] →
  no_idle pre →
  outcome (reviewSkill client skillName skillPath)
  = Returned (last_assistant_text pre)
  ∧ (omap message_text pre = [] →
     outcome (reviewSkill client skillName skillPath) = Returned "").
Proof.
  intros Hc Hs Hd Hev Hpre.
  assert (outcome (reviewSkill client skillName skillPath)
          = Returned (last_assistant_text pre)) as Hout.
  { rewrite reviewSkill_outcome, Hs, Hev, Hd by done.
    by rewrite run_listener_first_idle. }
  split; [done|]. intros Hnone. rewrite Hout.
  unfold last_assistant_text. by rewrite Hnone.
Qed.

(** C2. When the session emits several [session.idle] events, the
    promise is settled exactly once, with the working text as of the
    first idle event; nothing that arrives later changes it, and
    [reviewSkill] returns that text. *)
Theorem reviewSkill_settles_once client skillName skillPath pre post :
  create_error (client skillName) = None →
  send_error (client skillName) = None →
  destroy_error (client skillName) = None →
  emitted_after_prompt (client skillName) = pre ++ session_idle :: post →
  no_idle pre →
  session_idle ∈ post →
  settlements (emitted_after_prompt (client skillName)) fresh = 1%nat
  ∧ done (run_listener (pre ++ [session_idle]) fresh)
    = JS.Fulfilled (content (run_listener pre fresh))
  ∧ (∀ k, done (run_listener (pre ++ session_idle :: take k post) fresh)
          = JS.Fulfilled (content (run_listener pre fresh)))
  ∧ outcome (reviewSkill client skillName skillPath)
    = Returned (content (run_listener pre fresh)).
Proof.
  intros Hc Hs Hd Hev Hpre _.
  assert (Hfirst : ∀ rest,
             done (run_listener (pre ++ session_idle :: rest) fresh)
             = JS.Fulfilled (content (run_listener pre fresh))).
  { intros rest. rewrite run_listener_first_idle by done.
    by rewrite run_listener_content. }
  repeat split; try done.
  - rewrite Hev, settlements_app, settlements_no_idle by done.
    simpl. rewrite next_listener_idle. simpl.
    rewrite run_listener_no_idle by done. simpl.
    by erewrite settlements_latched.
  - by rewrite reviewSkill_outcome, Hs, Hev, Hfirst, Hd.
Qed.

(** C10. An [assistant.message] without content overwrites the working
    text with the empty text, whatever was there; if such a message is
    the last one before idle, [reviewSkill] returns the empty text even
    though earlier messages carried text. *)
Theorem contentless_message_erases_report client skillName skillPath pre :
  (∀ l, content (next_listener l (assistant_message None)) = ""
        ∧ done (next_listener l (assistant_message None)) = done l)
  ∧ (create_error (client skillName) = None →
     send_error (client skillName) = None →
     destroy_error (client skillName) = None →
     emitted_after_prompt (client skillName)
     = pre ++ [assistant_message None; session_idle] →
     no_idle pre →
     outcome (reviewSkill client skillName skillPath) = Returned "").
Proof.
  split; [done|]. intros Hc Hs Hd Hev Hpre.
  rewrite reviewSkill_outcome, Hs, Hev, Hd by done.
  replace (pre ++ [assistant_message None; session_idle])
    with ((pre ++ [assistant_message None]) ++ [session_idle])
    by by rewrite <- app_assoc.
  rewrite run_listener_first_idle; [|by apply Forall_app; split; [|repeat constructor]|done].
  rewrite omap_app.
  change (omap message_text [assistant_message None]) with [""].
  by rewrite last_snoc.
Qed.

End Controller.

Section Lifecycle.
Import Sdk Review Props.

Lemma sdk_calls_app t1 t2 : sdk_calls (t1 ++ t2) = sdk_calls t1 ++ sdk_calls t2.
Proof. apply List.filter_app. Qed.

Lemma sdk_calls_delivery t : Forall is_delivery t → sdk_calls t = [].
Proof.
  induction 1 as [|e t He _ IH]; [done|].
  destruct e; simpl in *; done.
Qed.

Lemma sdk_calls_emit_all es s : sdk_calls (trace (emit_all es s)) = [].
Proof. apply sdk_calls_delivery, emit_all_trace. Qed.

Lemma sdk_calls_dropped es : sdk_calls (map Dropped es) = [].
Proof. apply sdk_calls_delivery. by apply Forall_fmap, Forall_true. Qed.

Lemma sdk_calls_elem e t : e ∈ sdk_calls t → e ∈ t.
Proof. rewrite !list_elem_of_In. unfold sdk_calls. rewrite List.filter_In. tauto. Qed.

Lemma sdk_calls_destroy t : SessionDestroy ∈ t → SessionDestroy ∈ sdk_calls t.
Proof. rewrite !list_elem_of_In. unfold sdk_calls. rewrite List.filter_In. tauto. Qed.

(** If an idle event is among them, the events settle the promise. *)
Lemma run_listener_idle_settles es l :
  session_idle ∈ es → ∃ v, done (run_listener es l) = JS.Fulfilled v.
Proof.
  revert l; induction es as [|e es IH]; intros l Hin.
  { by apply elem_of_nil in Hin. }
  rewrite run_listener_cons.
  apply elem_of_cons in Hin as [<-|Hin]; [|by apply IH].
  rewrite next_listener_idle.
  destruct (done l) as [|v] eqn:Hl; simpl.
  - exists (content l). by apply run_listener_latched.
  - exists v. by apply run_listener_latched.
Qed.

(** The SDK calls [reviewSkill] makes on a created session, in order. *)
Lemma reviewSkill_sdk_calls client skillName skillPath :
  create_error (client skillName) = None →
  sdk_calls (trace (reviewSkill client skillName skillPath))
  = [CreateSession "gpt-5.2-codex" false [listDirectory; readFile];
     SessionOn; SessionSend (reviewPrompt skillPath)]
    ++ match send_error (client skillName),
             done (run_listener (emitted_after_prompt (client skillName)) fresh) with
       | None, JS.Fulfilled _ => [SessionDestroy]
       | _, _ => []
       end.
Proof.
  intros Hc. rewrite (reviewSkill_created _ _ _ Hc). cbv zeta.
  rewrite l_end_eq.
  destruct (send_error _); [|destruct (done _)]; simpl;
    rewrite ?sdk_calls_app, ?sdk_calls_emit_all, ?sdk_calls_dropped; simpl;
    by rewrite ?sdk_calls_app, ?sdk_calls_emit_all, ?sdk_calls_dropped.
Qed.

(** C3 (as amended). On a created session whose [send] succeeds and which
    emits an idle event, [reviewSkill] completes and [session.destroy] is
    its last action; when [send] throws, [reviewSkill] fails with that
    error and never calls [session.destroy]. *)
Theorem session_destroyed_after_idle client skillName skillPath :
  create_error (client skillName) = None →
  (send_error (client skillName) = None →
   session_idle ∈ emitted_after_prompt (client skillName) →
   outcome (reviewSkill client skillName skillPath) ≠ Stalled
   ∧ last (trace (reviewSkill client skillName skillPath)) = Some SessionDestroy
   ∧ sdk_calls (trace (reviewSkill client skillName skillPath))
     = [CreateSession "gpt-5.2-codex" false [listDirectory; readFile];
        SessionOn; SessionSend (reviewPrompt skillPath); SessionDestroy])
  ∧ (∀ err, send_error (client skillName) = Some err →
       outcome (reviewSkill client skillName skillPath) = Threw err
       ∧ SessionDestroy ∉ trace (reviewSkill client skillName skillPath)).
Proof.
  intros Hc. split.
  - intros Hs Hidle.
    destruct (run_listener_idle_settles _ fresh Hidle) as [v Hv].
    split; [|split].
    + rewrite reviewSkill_outcome, Hs, Hv by done. by destruct (destroy_error _).
    + rewrite (reviewSkill_created _ _ _ Hc). cbv zeta.
      rewrite l_end_eq, Hs, Hv. unfold trace, snd. apply last_snoc.
    + by rewrite reviewSkill_sdk_calls, Hs, Hv.
  - intros err Hs. split.
    + by rewrite reviewSkill_outcome, Hs.
    + intros Hin%sdk_calls_destroy.
      rewrite reviewSkill_sdk_calls, Hs in Hin by done.
      simpl in Hin.
      repeat (apply elem_of_cons in Hin as [Hin|Hin]; [done|]).
      by apply elem_of_nil in Hin.
Qed.

(** C4. The listener is registered before the prompt is sent: the two
    calls are adjacent in the trace, nothing was sent before, every event
    the session emits from then on reaches the listener, and the events
    emitted while [send] is still in flight are delivered whether or not
    [send] eventually succeeds. *)
Theorem subscription_precedes_send client skillName skillPath :
  create_error (client skillName) = None →
  ∃ before after,
    trace (reviewSkill client skillName skillPath)
    = before ++ SessionOn :: SessionSend (reviewPrompt skillPath) :: after
    ∧ sdk_calls before
      = [CreateSession "gpt-5.2-codex" false [listDirectory; readFile]]
    ∧ delivered before = []
    ∧ dropped after = []
    ∧ delivered after
      = emitted_during_send (client skillName)
        ++ match send_error (client skillName) with
           | None => emitted_after_send (client skillName)
           | Some _ => []
           end.
Proof.
  intros Hc. rewrite (reviewSkill_created _ _ _ Hc). cbv zeta.
  set (sc := client skillName).
  set (l_sent := run_listener (emitted_during_send sc) fresh).
  set (t_send := trace (emit_all (emitted_during_send sc)
                          {| script := sc; listener := Some fresh |})).
  set (t_wait := trace (emit_all (emitted_after_send sc)
                          {| script := sc; listener := Some l_sent |})).
  assert (Hs1 : delivered t_send = emitted_during_send sc) by apply emit_all_delivered.
  assert (Hs2 : dropped t_send = []) by apply emit_all_dropped.
  assert (Hw1 : delivered t_wait = emitted_after_send sc) by apply emit_all_delivered.
  assert (Hw2 : dropped t_wait = []) by apply emit_all_dropped.
  assert (Hdel : delivered (map Dropped (emitted_on_create sc)) = []).
  { apply (omap_none_Forall _ is_delivery_drop).
    - by intros [].
    - by apply Forall_fmap, Forall_true. }
  exists ([Call_reviewSkill skillName skillPath;
      ConsoleError (JS.nl +:+ "=== Reviewing skill: " +:+ skillName +:+ " ===" +:+ JS.nl);
      ConsoleError ("Starting agent with gpt-5.2-codex..." +:+ JS.nl);
      CreateSession "gpt-5.2-codex" false [listDirectory; readFile]]
     ++ map Dropped (emitted_on_create sc)).
  exists (t_send ++ match send_error sc with
                    | Some _ => []
                    | None =>
                        t_wait ++ match done (run_listener (emitted_after_send sc) l_sent) with
                                  | JS.Fulfilled _ => [SessionDestroy]
                                  | JS.Unsettled => []
                                  end
                    end).
  split; [|split; [|split; [|split]]].
  - destruct (send_error sc); [|destruct (done _)]; unfold trace, snd;
      rewrite <- ?app_assoc; cbn [app]; rewrite ?app_nil_r, <- ?app_assoc; reflexivity.
  - by rewrite sdk_calls_app, sdk_calls_dropped.
  - unfold delivered in *. by rewrite omap_app, Hdel.
  - unfold dropped in *. rewrite omap_app, Hs2.
    destruct (send_error sc); [done|]. rewrite omap_app, Hw2.
    by destruct (done _).
  - unfold delivered in *. rewrite omap_app, Hs1. f_equal.
    destruct (send_error sc); [done|]. rewrite omap_app, Hw1.
    destruct (done _); simpl; by rewrite app_nil_r.
Qed.

End Lifecycle.

(** ** The publisher and the loop body *)

Section Publisher.
Import Node Sdk Review Props.

Lemma outcome_bind {A B} (m : M A) (k : A → M B) :
  outcome (m ≫= k)
  = match outcome m with
    | Returned a => outcome (k a)
    | Threw e => Threw e
    | Stalled => Stalled
    end.
Proof.
  destruct m as [[a|e|] t]; simpl; try done.
  unfold mbind, M_bind, bind. by destruct (k a).
Qed.

Lemma trace_bind {A B} (m : M A) (k : A → M B) :
  trace (m ≫= k)
  = trace m ++ match outcome m with
               | Returned a => trace (k a)
               | _ => []
               end.
Proof.
  destruct m as [[a|e|] t]; simpl; try by rewrite app_nil_r.
  unfold mbind, M_bind, bind. by destruct (k a).
Qed.

Lemma reviewed_app t1 t2 : reviewed (t1 ++ t2) = reviewed t1 ++ reviewed t2.
Proof. apply omap_app. Qed.

Lemma executed_app t1 t2 : executed (t1 ++ t2) = executed t1 ++ executed t2.
Proof. apply omap_app. Qed.

Lemma child_writes_effects W command :
  Forall Coverage.child_effect (child_writes W command).
Proof. unfold child_writes. by apply Forall_fmap, Forall_true. Qed.

Lemma reviewed_child_writes W command : reviewed (child_writes W command) = [].
Proof.
  apply (omap_none_Forall _ Coverage.child_effect); [by intros []|].
  apply child_writes_effects.
Qed.

Lemma executed_child_writes W command : executed (child_writes W command) = [].
Proof.
  apply (omap_none_Forall _ Coverage.child_effect); [by intros []|].
  apply child_writes_effects.
Qed.

Lemma createGitHubIssue_eq W skillName report :
  createGitHubIssue W skillName report
  = (Returned (),
     ExecSync (issue_command W ("Skill Review: " +:+ skillName) report)
     :: child_writes W (issue_command W ("Skill Review: " +:+ skillName) report)
     ++ [ConsoleError
           match execSync_error W (issue_command W ("Skill Review: " +:+ skillName) report) with
           | Some err => "[Error] Failed to create issue for " +:+ skillName +:+ ": " +:+ err
           | None => "[Issue] Created issue for " +:+ skillName
           end]).
Proof.
  unfold createGitHubIssue, execSync, tell_all. cbv zeta.
  set (t := child_writes W _).
  destruct (execSync_error W _); unfold try_catch, mbind, M_bind, bind, tell,
    fail_if, throw, ret; cbn [app]; by rewrite ?app_nil_r.
Qed.

Lemma createGitHubIssue_executed W skillName report :
  executed (trace (createGitHubIssue W skillName report))
  = [issue_command W ("Skill Review: " +:+ skillName) report].
Proof.
  rewrite createGitHubIssue_eq. unfold trace, snd.
  change (executed (ExecSync ?c :: ?t)) with (c :: executed t).
  by rewrite executed_app, executed_child_writes.
Qed.

(** What is written once a report has been obtained. *)
Lemma review_and_publish_eq W skillsDir skillName :
  review_and_publish W skillsDir skillName
  = match outcome (reviewSkill (session_script W) skillName
                               (path_join skillsDir skillName)) with
    | Returned report =>
        (Returned (),
         trace (reviewSkill (session_script W) skillName (path_join skillsDir skillName))
         ++ [ConsoleLog (JS.nl +:+ "--- REPORT: " +:+ skillName +:+ " ---" +:+ JS.nl);
             ConsoleLog report;
             ConsoleLog (JS.nl +:+ "--- END REPORT ---" +:+ JS.nl)]
         ++ (if dryRun W
             then [ConsoleError
                     ("[dry-run] Would create issue:" +:+ JS.nl
                      +:+ "  gh issue create --title " +:+ JS.dquote
                      +:+ "Skill Review: " +:+ skillName +:+ JS.dquote
                      +:+ " --body " +:+ JS.dquote +:+ "..." +:+ JS.dquote)]
             else trace (createGitHubIssue W skillName report)))
    | Threw err =>
        (Returned (),
         trace (reviewSkill (session_script W) skillName (path_join skillsDir skillName))
         ++ [ConsoleError ("[Error] Failed to review skill " +:+ skillName
                           +:+ ": " +:+ err)])
    | Stalled =>
        (Stalled,
         trace (reviewSkill (session_script W) skillName (path_join skillsDir skillName)))
    end.
Proof.
  unfold review_and_publish. cbv zeta.
  destruct (reviewSkill _ _ _) as [[report|err|] t]; simpl; try done.
  rewrite createGitHubIssue_eq.
  destruct (dryRun W); simpl; by rewrite <- ?app_assoc.
Qed.

Lemma review_and_publish_never_throws W skillsDir skillName err :
  outcome (review_and_publish W skillsDir skillName) ≠ Threw err.
Proof. rewrite review_and_publish_eq. by destruct (outcome (reviewSkill _ _ _)). Qed.

Lemma review_and_publish_completes W skillsDir skillName :
  completes W skillsDir skillName →
  outcome (review_and_publish W skillsDir skillName) = Returned ().
Proof.
  unfold completes. rewrite review_and_publish_eq.
  by destruct (outcome (reviewSkill _ _ _)).
Qed.

Lemma review_and_publish_reviewed W skillsDir skillName :
  reviewed (trace (review_and_publish W skillsDir skillName)) = [skillName].
Proof.
  rewrite review_and_publish_eq.
  destruct (outcome (reviewSkill _ _ _)) as [report|err|] eqn:Ho;
    unfold trace at 1, snd;
    rewrite ?reviewed_app, reviewSkill_reviewed; try done.
  rewrite createGitHubIssue_eq. destruct (dryRun W); [done|].
  unfold trace, snd. change (reviewed (ExecSync ?c :: ?t)) with (reviewed t).
  by rewrite reviewed_app, reviewed_child_writes.
Qed.

Lemma reviewSkill_executed client skillName skillPath :
  executed (trace (reviewSkill client skillName skillPath)) = [].
Proof.
  assert (Hd : ∀ es s, executed (trace (emit_all es s)) = []).
  { intros. apply (omap_none_Forall _ is_delivery); [by intros []|].
    apply emit_all_trace. }
  assert (Hm : ∀ es, executed (map Dropped es) = []).
  { intros. apply (omap_none_Forall _ is_delivery); [by intros []|].
    by apply Forall_fmap, Forall_true. }
  destruct (create_error (client skillName)) as [err|] eqn:Hc.
  - rewrite (reviewSkill_not_created _ _ _ _ Hc). simpl. by rewrite Hm.
  - rewrite (reviewSkill_created _ _ _ Hc). cbv zeta.
    destruct (send_error _); [|destruct (done _)]; simpl;
      unfold executed in *; rewrite ?omap_app, ?Hd, ?Hm; simpl;
      by rewrite ?omap_app, ?Hd, ?Hm.
Qed.

(** In preview mode the loop body runs no external command. *)
Lemma review_and_publish_dry W skillsDir skillName :
  dryRun W = true →
  executed (trace (review_and_publish W skillsDir skillName)) = [].
Proof.
  intros Hdry. rewrite review_and_publish_eq, Hdry.
  destruct (outcome (reviewSkill _ _ _)) as [report|err|] eqn:Ho;
    unfold trace at 1, snd;
    by rewrite ?executed_app, reviewSkill_executed.
Qed.

Lemma for_of_cons {A} (x : A) r body :
  for_of (x :: r) body = (body x ;; for_of r body).
Proof. reflexivity. Qed.

Lemma for_of_never_throws W skillsDir skills err :
  outcome (for_of skills (review_and_publish W skillsDir)) ≠ Threw err.
Proof.
  induction skills as [|n skills IH]; [done|].
  rewrite for_of_cons, outcome_bind.
  destruct (outcome (review_and_publish _ _ _)) as [[]|e|] eqn:Ho; try done.
  by apply review_and_publish_never_throws in Ho.
Qed.

Lemma for_of_completes W skillsDir skills :
  Forall (completes W skillsDir) skills →
  outcome (for_of skills (review_and_publish W skillsDir)) = Returned ()
  ∧ reviewed (trace (for_of skills (review_and_publish W skillsDir))) = skills.
Proof.
  induction 1 as [|n skills Hn _ [IHo IHt]]; [done|].
  rewrite for_of_cons, outcome_bind, trace_bind.
  rewrite (review_and_publish_completes _ _ _ Hn), reviewed_app.
  by rewrite review_and_publish_reviewed, IHt.
Qed.

(** The trace of every completed iteration is part of the loop's trace. *)
Lemma for_of_trace_elem W skillsDir skills n e :
  Forall (completes W skillsDir) skills →
  n ∈ skills →
  e ∈ trace (review_and_publish W skillsDir n) →
  e ∈ trace (for_of skills (review_and_publish W skillsDir)).
Proof.
  induction 1 as [|m skills Hm Hall IH]; intros Hn He.
  { by apply elem_of_nil in Hn. }
  rewrite for_of_cons, trace_bind, (review_and_publish_completes _ _ _ Hm).
  apply elem_of_app.
  apply elem_of_cons in Hn as [->|Hn]; [by left|right; by apply IH].
Qed.

Lemma for_of_dry W skillsDir skills :
  dryRun W = true →
  executed (trace (for_of skills (review_and_publish W skillsDir))) = [].
Proof.
  intros Hdry. induction skills as [|n skills IH]; [done|].
  rewrite for_of_cons, trace_bind, executed_app, review_and_publish_dry by done.
  by destruct (outcome _).
Qed.

End Publisher.

(** ** Discovery and command-line arguments *)

Section Discovery.
Import Node Sdk Review Props.

Lemma discoverSkills_eq W skillsDir :
  discoverSkills W skillsDir
  = (match readdir W skillsDir with
     | inl err => Threw err
     | inr entries =>
         Returned (map name
                     (List.filter
                        (λ e, isDirectory e && negb (JS.startsWith (name e) "."))
                        entries))
     end, [Readdir skillsDir]).
Proof.
  unfold discoverSkills, fs_readdir. by destruct (readdir W skillsDir).
Qed.

Lemma startsWith_dot n : JS.startsWith n "." = true ↔ hidden n.
Proof.
  unfold JS.startsWith, hidden. destruct n as [|c r].
  - split; [discriminate|]. by intros [rest [=]].
  - change (String.prefix "." (String c r))
      with (if Ascii.ascii_dec "."%char c then String.prefix "" r else false).
    destruct (Ascii.ascii_dec "." c) as [<-|Hne].
    + split; [by exists r|]. by destruct r.
    + split; [discriminate|]. by intros [rest [= -> ->]].
Qed.

Lemma isDirectory_true e : isDirectory e = true ↔ file_type e = Directory.
Proof. unfold isDirectory. by destruct (file_type e). Qed.

Lemma indexOf_from_found before x after i :
  x ∉ before →
  JS.indexOf_from (before ++ x :: after) x i = i + Z.of_nat (length before).
Proof.
  revert i; induction before as [|y before IH]; intros i Hx; simpl.
  - rewrite String.eqb_refl. lia.
  - apply not_elem_of_cons in Hx as [Hne Hx].
    destruct (String.eqb_spec y x) as [->|_]; [done|].
    rewrite IH by done. lia.
Qed.

Lemma indexOf_from_absent a x i : x ∉ a → JS.indexOf_from a x i = -1.
Proof.
  revert i; induction a as [|y a IH]; intros i Hx; [done|]. simpl.
  apply not_elem_of_cons in Hx as [Hne Hx].
  destruct (String.eqb_spec y x) as [->|_]; [done|]. by apply IH.
Qed.

Lemma numeral_value_nonneg s : all_digits s = true → 0 ≤ numeral_value s.
Proof.
  induction s as [|c r IH]; intros Hs; [done|].
  cbn [all_digits] in Hs. apply andb_prop in Hs as [Hc Hr].
  unfold is_digit in Hc. apply andb_prop in Hc as [H1 _].
  apply Nat.leb_le in H1. cbn [numeral_value].
  apply Z.add_nonneg_nonneg; [|by apply IH].
  apply Z.mul_nonneg_nonneg; [lia|]. apply Z.pow_nonneg. lia.
Qed.

Lemma parse_digits_numeral s seen acc :
  all_digits s = true →
  JS.parse_digits s seen acc
  = (seen || negb (String.eqb s ""),
     acc * 10 ^ Z.of_nat (String.length s) + numeral_value s).
Proof.
  revert seen acc; induction s as [|c r IH]; intros seen acc Hs.
  - simpl. rewrite orb_false_r. f_equal. lia.
  - cbn [all_digits] in Hs. apply andb_prop in Hs as [Hc Hr].
    cbn [JS.parse_digits numeral_value String.length].
    unfold JS.digit_value. fold (is_digit c). rewrite Hc.
    rewrite IH by done. rewrite orb_true_r.
    f_equal. rewrite Nat2Z.inj_succ, Z.pow_succ_r by lia. lia.
Qed.

(** A string that starts with an ASCII character other than white space
    is left alone by [trim_start]. *)
Lemma trim_start_ascii c r :
  JS.is_white_space c = false →
  (nat_of_ascii c < 128)%nat →
  JS.trim_start (String c r) = String c r.
Proof.
  intros Hws Hc. cbn [JS.trim_start]. rewrite Hws.
  destruct r as [|d r1]; [done|].
  assert (H2 : JS.is_white_space2 c d = false).
  { unfold JS.is_white_space2.
    by destruct (Nat.eqb_spec (nat_of_ascii c) 194); [lia|]. }
  rewrite H2. destruct r1 as [|e r2]; [done|].
  assert (H3 : JS.is_white_space3 c d e = false).
  { unfold JS.is_white_space3.
    destruct (Nat.eqb_spec (nat_of_ascii c) 225); [lia|].
    destruct (Nat.eqb_spec (nat_of_ascii c) 226); [lia|].
    destruct (Nat.eqb_spec (nat_of_ascii c) 227); [lia|].
    by destruct (Nat.eqb_spec (nat_of_ascii c) 239); [lia|]. }
  by rewrite H3.
Qed.

(** Integers up to 2^53 in magnitude are their own Number value. *)
Lemma to_double_exact z : Z.abs z ≤ 2 ^ 53 → JS.to_double z = JS.Int z.
Proof.
  intros Hz. unfold JS.to_double.
  by destruct (Z.leb_spec (Z.abs z) (2 ^ 53)); [|lia].
Qed.

(** A leading digit is neither white space nor a sign, so [parseInt]
    reads a numeral as the number it denotes, exactly so up to 2^53. *)
Lemma parseInt_numeral s :
  numeral s →
  numeral_value s ≤ 2 ^ 53 →
  JS.parseInt (Some s) = JS.Int (numeral_value s).
Proof.
  intros [Hne Hs] Hbound. destruct s as [|c r]; [done|].
  pose proof (numeral_value_nonneg _ Hs) as Hpos.
  cbn [all_digits] in Hs. pose proof Hs as Hcr.
  apply andb_prop in Hs as [Hc Hr].
  assert (Hrange : (48 ≤ nat_of_ascii c ≤ 57)%nat).
  { unfold is_digit in Hc. apply andb_prop in Hc as [H1 H2].
    apply Nat.leb_le in H1, H2. lia. }
  assert (Hws : JS.is_white_space c = false).
  { unfold JS.is_white_space.
    destruct (Nat.leb_spec (nat_of_ascii c) 13); [lia|].
    destruct (Nat.eqb_spec (nat_of_ascii c) 32); [lia|].
    by rewrite andb_false_r. }
  unfold JS.parseInt, JS.ToString. rewrite trim_start_ascii by (done || lia).
  assert (Hsign : c ≠ "-"%char ∧ c ≠ "+"%char).
  { split; intros ->.
    - change (nat_of_ascii "-") with 45%nat in Hrange. lia.
    - change (nat_of_ascii "+") with 43%nat in Hrange. lia. }
  destruct Hsign as [Hminus Hplus].
  assert (Hbody :
    (match String c r with
     | String "-"%char r0 => (-1, r0)
     | String "+"%char r0 => (1, r0)
     | _ => (1, String c r)
     end) = (1, String c r)).
  { destruct c as [[] [] [] [] [] [] [] []]; try reflexivity; congruence. }
  rewrite Hbody, (parse_digits_numeral (String c r) _ _ Hcr).
  cbn [orb negb String.eqb].
  rewrite to_double_exact by lia. f_equal. lia.
Qed.

(** [limit] is [parseInt] of whatever follows the first [--limit]. *)
Lemma limit_of_flag W value : limit_flag W value → limit W = JS.parseInt value.
Proof.
  intros (before & after & Hargs & Hnot & ->).
  unfold limit, limitIndex, JS.indexOf. rewrite Hargs.
  rewrite indexOf_from_found by done.
  destruct (Z.eqb_spec (0 + Z.of_nat (length before)) (-1)) as [?|_]; [lia|].
  simpl negb. cbv iota.
  f_equal. unfold JS.index.
  destruct (Z.ltb_spec (0 + Z.of_nat (length before) + 1) 0) as [?|_]; [lia|].
  replace (Z.to_nat (0 + Z.of_nat (length before) + 1))
    with (length before + 1)%nat by lia.
  rewrite lookup_app_r by lia.
  replace (length before + 1 - length before)%nat with 1%nat by lia.
  by destruct after.
Qed.

Lemma limit_without_flag W : "--limit" ∉ args W → limit W = JS.Infinity.
Proof.
  intros Hnot. unfold limit, limitIndex, JS.indexOf.
  by rewrite indexOf_from_absent.
Qed.

(** [slice(0, N)] for a non-negative [N] is the prefix of length [N]. *)
Lemma slice_prefix {A} (l : list A) N :
  0 ≤ N → JS.slice l (JS.Int 0) (JS.Int N) = take (Z.to_nat N) l.
Proof.
  intros HN. unfold JS.slice, JS.relative.
  destruct (Z.ltb_spec N 0) as [?|_]; [lia|].
  change (0 <? 0) with false. cbv iota.
  replace (0 `min` Z.of_nat (length l)) with 0 by lia.
  rewrite Z.sub_0_r. change (drop (Z.to_nat 0) l) with l.
  destruct (Z.min_spec N (Z.of_nat (length l))) as [[_ ->]|[Hle ->]]; [done|].
  rewrite Nat2Z.id, firstn_all. symmetry. apply take_ge. lia.
Qed.

(** [main] around its loop, once discovery has returned. *)
Lemma main_around_loop W found :
  outcome (discoverSkills W (skills_root W)) = Returned found →
  client_start_error W = None →
  let selected :=
    if JS.lt_Infinity (limit W) then JS.slice found (JS.Int 0) (limit W) else found in
  let loop := for_of selected (review_and_publish W (skills_root W)) in
  reviewed (trace (main W)) = reviewed (trace loop)
  ∧ (client_stop_error W = None → outcome (main W) = outcome loop).
Proof.
  intros Hfound Hstart. cbv zeta. unfold main. cbv zeta.
  rewrite discoverSkills_eq in Hfound |- *.
  destruct (readdir W (skills_root W)) as [err|entries]; [done|].
  injection Hfound as Hfound. rewrite Hfound, Hstart.
  unfold mbind, M_bind, bind, tell, mret, M_ret, fail_if, throw, ret.
  destruct (JS.lt_Infinity (limit W)); cbv beta iota;
    (match goal with
     | |- context [for_of ?l ?b] => generalize (for_of l b)
     end; intros [[[]|e|] t]);
    unfold outcome, trace, fst, snd;
    (split; [|intros Hstop; rewrite ?Hstop]); try reflexivity;
    try destruct (client_stop_error W);
    unfold reviewed; cbn [omap list_omap app];
    rewrite ?omap_app; cbn [omap list_omap app]; by rewrite ?app_nil_r.
Qed.

End Discovery.

(** ** Properties of the orchestrator *)

Section Orchestrator.
Import Node Sdk Review Props.

(** C5. No failure of a single skill leaves the loop: whatever the
    sessions and the issue tracker do, the loop never throws; when every
    review runs to completion (returning or throwing), every skill of the
    sequence is reviewed, in order, and each review failure and each
    ticket-creation failure is logged. *)
Theorem skill_failures_are_isolated W skillsDir skills :
  (∀ err, outcome (for_of skills (review_and_publish W skillsDir)) ≠ Threw err)
  ∧ (Forall (completes W skillsDir) skills →
     outcome (for_of skills (review_and_publish W skillsDir)) = Returned ()
     ∧ reviewed (trace (for_of skills (review_and_publish W skillsDir))) = skills
     ∧ (∀ n err,
          n ∈ skills →
          outcome (reviewSkill (session_script W) n (path_join skillsDir n))
          = Threw err →
          ConsoleError ("[Error] Failed to review skill " +:+ n +:+ ": " +:+ err)
          ∈ trace (for_of skills (review_and_publish W skillsDir)))
     ∧ (∀ n report err,
          n ∈ skills →
          dryRun W = false →
          outcome (reviewSkill (session_script W) n (path_join skillsDir n))
          = Returned report →
          execSync_error W (issue_command W ("Skill Review: " +:+ n) report)
          = Some err →
          ConsoleError ("[Error] Failed to create issue for " +:+ n +:+ ": " +:+ err)
          ∈ trace (for_of skills (review_and_publish W skillsDir)))).
Proof.
  split; [intros err; apply for_of_never_throws|].
  intros Hall. destruct (for_of_completes _ _ _ Hall) as [Ho Ht].
  repeat split; try done.
  - intros n err Hn Hthrew.
    apply (for_of_trace_elem _ _ _ n); [done..|].
    rewrite review_and_publish_eq, Hthrew. unfold trace at 1, snd.
    apply elem_of_app; right. by apply list_elem_of_singleton.
  - intros n report err Hn Hdry Hret Hgh.
    apply (for_of_trace_elem _ _ _ n); [done..|].
    rewrite review_and_publish_eq, Hret, Hdry, createGitHubIssue_eq, Hgh.
    unfold trace at 1, snd.
    apply elem_of_app; right. unfold trace, snd.
    do 4 (apply elem_of_cons; right).
    apply elem_of_app; right. by apply list_elem_of_singleton.
Qed.

(** C6 (as amended). Provided discovery succeeds, the client starts and
    stops without error and the review of every skill concerned completes:
    when the value after [--limit] parses to a non-negative integer N (in
    particular when it is a decimal numeral N up to 2^53), exactly the
    first N discovered skills are reviewed (all of them if there are
    fewer); when the flag is absent, or its value parses to [NaN] or to
    [Infinity], every discovered skill is reviewed; in each case [main]
    returns normally. *)
Theorem limit_selects_prefix W found :
  outcome (discoverSkills W (skills_root W)) = Returned found →
  client_start_error W = None →
  client_stop_error W = None →
  (∀ value N,
     limit_flag W value → JS.parseInt value = JS.Int N → 0 ≤ N →
     Forall (completes W (skills_root W)) (take (Z.to_nat N) found) →
     outcome (main W) = Returned ()
     ∧ reviewed (trace (main W)) = take (Z.to_nat N) found)
  ∧ (∀ value,
       limit_flag W (Some value) → numeral value →
       numeral_value value ≤ 2 ^ 53 →
       Forall (completes W (skills_root W))
              (take (Z.to_nat (numeral_value value)) found) →
       outcome (main W) = Returned ()
       ∧ reviewed (trace (main W)) = take (Z.to_nat (numeral_value value)) found)
  ∧ (∀ value,
       limit_flag W value →
       JS.parseInt value = JS.NaN ∨ JS.parseInt value = JS.Infinity →
       Forall (completes W (skills_root W)) found →
       outcome (main W) = Returned () ∧ reviewed (trace (main W)) = found)
  ∧ ("--limit" ∉ args W →
     Forall (completes W (skills_root W)) found →
     outcome (main W) = Returned () ∧ reviewed (trace (main W)) = found).
Proof.
  intros Hfound Hstart Hstop.
  destruct (main_around_loop W found Hfound Hstart) as [Ht Ho].
  specialize (Ho Hstop). cbv zeta in Ht, Ho.
  assert (Hprefix : ∀ value N,
    limit_flag W value → JS.parseInt value = JS.Int N → 0 ≤ N →
    Forall (completes W (skills_root W)) (take (Z.to_nat N) found) →
    outcome (main W) = Returned ()
    ∧ reviewed (trace (main W)) = take (Z.to_nat N) found).
  { intros value N Hflag Hparse HN Hall.
    rewrite (limit_of_flag _ _ Hflag), Hparse in Ht, Ho. simpl in Ht, Ho.
    rewrite Ht, Ho, slice_prefix by done.
    by apply for_of_completes. }
  split; [exact Hprefix|]. split; [|split].
  - intros value Hflag Hnum Hbound Hall.
    apply (Hprefix (Some value)); [done|by apply parseInt_numeral| |done].
    apply numeral_value_nonneg, Hnum.
  - intros value Hflag Hparse Hall.
    rewrite (limit_of_flag _ _ Hflag) in Ht, Ho.
    destruct Hparse as [Hparse|Hparse]; rewrite Hparse in Ht, Ho;
      simpl in Ht, Ho; rewrite Ht, Ho; by apply for_of_completes.
  - intros Hnot Hall.
    rewrite (limit_without_flag _ Hnot) in Ht, Ho. simpl in Ht, Ho.
    rewrite Ht, Ho. by apply for_of_completes.
Qed.

(** C7. [discoverSkills] returns, in listing order, exactly the names of
    the entries that are directories and whose name does not start with a
    dot; a listing of the directories [.git], [alpha] and [beta] yields
    [alpha] and [beta]. *)
Theorem discoverSkills_visible_directories W skillsDir entries :
  readdir W skillsDir = inr entries →
  ∃ names,
    outcome (discoverSkills W skillsDir) = Returned names
    ∧ (∀ n, n ∈ names ↔
            ∃ e, e ∈ entries ∧ name e = n
                 ∧ file_type e = Directory ∧ ¬ hidden n)
    ∧ sublist names (map name entries)
    ∧ (entries = [ {| name := ".git"; file_type := Directory |};
                   {| name := "alpha"; file_type := Directory |};
                   {| name := "beta"; file_type := Directory |} ] →
       names = ["alpha"; "beta"]).
Proof.
  intros Hread. rewrite discoverSkills_eq, Hread. eexists; split; [done|].
  split; [|split].
  - intros n. rewrite list_elem_of_In, in_map_iff. split.
    + intros (e & <- & [He Hf]%List.filter_In).
      apply andb_prop in Hf as [Hd Hv]. apply negb_true_iff in Hv.
      exists e. rewrite list_elem_of_In. repeat split; try done.
      * by apply isDirectory_true.
      * intros Hh%startsWith_dot. congruence.
    + intros (e & He & <- & Hd & Hv). exists e. split; [done|].
      apply List.filter_In. split; [by apply list_elem_of_In|].
      apply andb_true_intro; split; [by apply isDirectory_true|].
      apply negb_true_iff. destruct (JS.startsWith (name e) ".") eqn:E; [|done].
      by apply startsWith_dot in E.
  - clear Hread.
    induction entries as [|e es IH]; [constructor|]. simpl.
    destruct (_ && _); simpl; by constructor.
  - by intros ->.
Qed.

(** C8 (as amended). The credential handed to [gh] is [GH_PAT] when that
    variable is set to a non-empty value, otherwise [GH_TOKEN] when that
    one is set to a non-empty value; with neither, the command carries no
    credential at all.  It is passed as a [GH_TOKEN=...] prefix of the
    command [createGitHubIssue] executes. *)
Theorem credential_first_nonempty_wins W skillName report :
  match nonempty_var W "GH_PAT", nonempty_var W "GH_TOKEN" with
  | Some pat, _ =>
      ghToken W = Some pat ∧ tokenPrefix W = credential_prefix pat
  | None, Some token =>
      ghToken W = Some token ∧ tokenPrefix W = credential_prefix token
  | None, None =>
      JS.truthy (ghToken W) = false ∧ tokenPrefix W = ""
  end
  ∧ executed (trace (createGitHubIssue W skillName report))
    = [tokenPrefix W +:+ "gh issue create --title " +:+ JS.dquote
         +:+ JS.escape_dquotes ("Skill Review: " +:+ skillName) +:+ JS.dquote
         +:+ " --body " +:+ JS.dquote +:+ "$(cat <<'EOF'" +:+ JS.nl
         +:+ report +:+ JS.nl +:+ "EOF" +:+ JS.nl +:+ ")" +:+ JS.dquote].
Proof.
  split; [|by rewrite createGitHubIssue_executed].
  unfold tokenPrefix, ghToken, nonempty_var, JS.or, credential_prefix.
  by destruct (env W !! "GH_PAT") as [[|c r]|];
    destruct (env W !! "GH_TOKEN") as [[|c' r']|].
Qed.

Lemma main_dry W : dryRun W = true → executed (trace (main W)) = [].
Proof.
  intros Hdry. unfold main. cbv zeta. rewrite discoverSkills_eq.
  destruct (readdir W (skills_root W)) as [err|entries]; [done|].
  unfold mbind, M_bind, bind, tell, mret, M_ret, fail_if, throw, ret.
  destruct (client_start_error W); destruct (JS.lt_Infinity (limit W));
    cbv beta iota; try done.
  all: match goal with
       | |- context [for_of ?l ?b] =>
           pose proof (for_of_dry W (skills_root W) l Hdry) as Hloop;
           revert Hloop; generalize (for_of l b)
       end; intros [[[]|e|] t] Hloop; unfold trace, snd in *;
    try destruct (client_stop_error W);
    unfold executed in *; cbn [omap list_omap app];
    rewrite ?omap_app, ?Hloop; done.
Qed.

(** C9. In preview mode no external command is run, whatever the
    sessions report (the empty report included): neither by [main] as a
    whole nor by the loop body for any skill; what is produced for a
    reviewed skill is the description of the command that would be run. *)
Theorem dry_run_executes_nothing W :
  dryRun W = true →
  executed (trace (main W)) = []
  ∧ (∀ skillsDir n, executed (trace (review_and_publish W skillsDir n)) = [])
  ∧ (∀ skillsDir n report,
       outcome (reviewSkill (session_script W) n (path_join skillsDir n))
       = Returned report →
       ConsoleError ("[dry-run] Would create issue:" +:+ JS.nl
                     +:+ "  gh issue create --title " +:+ JS.dquote
                     +:+ "Skill Review: " +:+ n +:+ JS.dquote
                     +:+ " --body " +:+ JS.dquote +:+ "..." +:+ JS.dquote)
       ∈ trace (review_and_publish W skillsDir n)).
Proof.
  intros Hdry. split; [by apply main_dry|]. split.
  - intros. by apply review_and_publish_dry.
  - intros skillsDir n report Hret.
    rewrite review_and_publish_eq, Hret, Hdry. unfold trace at 1, snd.
    apply elem_of_app; right.
    do 3 (apply elem_of_cons; right). by apply list_elem_of_singleton.
Qed.

End Orchestrator.

(** ** The properties on concrete runs *)

Section Runs.
Import Node Sdk Review Props Scenarios.

(** A session that reports and goes idle yields that report. *)
Lemma reviewSkill_returns_last_message_run :
  outcome (reviewSkill (λ _, answers "report") "alpha" "/repo/skills/alpha")
  = Returned "report"
  ∧ outcome (reviewSkill (λ _, silent) "alpha" "/repo/skills/alpha")
    = Returned "".
Proof.
  split.
  - apply (reviewSkill_returns_last_message (λ _, answers "report")
             "alpha" "/repo/skills/alpha"
             [tool_execution_start "list_directory" "{}"; tool_execution_end;
              assistant_message (Some "report")]);
      [reflexivity..|by repeat constructor].
  - apply (reviewSkill_returns_last_message (λ _, silent)
             "alpha" "/repo/skills/alpha" []);
      [reflexivity..|constructor|reflexivity].
Defined.

(** Two idle events: one settlement, with the text as of the first. *)
Lemma reviewSkill_settles_once_run :
  settlements (emitted_after_prompt idles_twice) fresh = 1%nat
  ∧ outcome (reviewSkill (λ _, idles_twice) "alpha" "/repo/skills/alpha")
    = Returned "report".
Proof.
  destruct (reviewSkill_settles_once (λ _, idles_twice)
              "alpha" "/repo/skills/alpha"
              [assistant_message (Some "draft"); assistant_message (Some "report")]
              [assistant_message (Some "afterthought"); session_idle])
    as (Hone & _ & _ & Hout);
    [reflexivity..|by repeat constructor| |by split].
  apply elem_of_cons; right. by apply list_elem_of_singleton.
Defined.

(** C3 (counterexample). A session whose [send] rejects: [reviewSkill]
    completes by throwing and [session.destroy] is never called. *)
Lemma send_failure_leaves_session_alive :
  create_error send_fails = None
  ∧ outcome (reviewSkill (λ _, send_fails) "alpha" "/repo/skills/alpha")
    = Threw "send failed"
  ∧ sdk_calls (trace (reviewSkill (λ _, send_fails) "alpha" "/repo/skills/alpha"))
    = [CreateSession "gpt-5.2-codex" false [listDirectory; readFile];
       SessionOn; SessionSend (reviewPrompt "/repo/skills/alpha")]
  ∧ ¬ released_on_every_path.
Proof.
  split; [reflexivity|]. split; [reflexivity|]. split; [reflexivity|].
  intros Hclaim.
  specialize (Hclaim (λ _, send_fails) "alpha" "/repo/skills/alpha" eq_refl).
  apply sdk_calls_destroy in Hclaim; [|discriminate].
  change (SessionDestroy
          ∈ [CreateSession "gpt-5.2-codex" false [listDirectory; readFile];
             SessionOn; SessionSend (reviewPrompt "/repo/skills/alpha")])
    in Hclaim.
  repeat (apply elem_of_cons in Hclaim as [Hclaim|Hclaim]; [discriminate|]).
  by apply elem_of_nil in Hclaim.
Qed.

(** On the success path the session is destroyed last. *)
Lemma session_destroyed_after_idle_run :
  last (trace (reviewSkill (λ _, answers "report") "alpha" "/repo/skills/alpha"))
  = Some SessionDestroy
  ∧ outcome (reviewSkill (λ _, send_fails) "alpha" "/repo/skills/alpha")
    = Threw "send failed".
Proof.
  split.
  - destruct (session_destroyed_after_idle (λ _, answers "report")
                "alpha" "/repo/skills/alpha" eq_refl) as [Hok _].
    destruct Hok as (_ & Hlast & _); [reflexivity| |exact Hlast].
    do 3 (apply elem_of_cons; right). by apply list_elem_of_singleton.
  - destruct (session_destroyed_after_idle (λ _, send_fails)
                "alpha" "/repo/skills/alpha" eq_refl) as [_ Hfail].
    exact (proj1 (Hfail "send failed" eq_refl)).
Defined.

(** The event emitted before the subscription is lost; those emitted
    after the prompt are all delivered. *)
Lemma subscription_precedes_send_run :
  ∃ before after,
    trace (reviewSkill (λ _, answers "report") "alpha" "/repo/skills/alpha")
    = before ++ SessionOn :: SessionSend (reviewPrompt "/repo/skills/alpha") :: after
    ∧ sdk_calls before
      = [CreateSession "gpt-5.2-codex" false [listDirectory; readFile]]
    ∧ delivered before = []
    ∧ dropped after = []
    ∧ delivered after
      = [tool_execution_start "list_directory" "{}"; tool_execution_end;
         assistant_message (Some "report"); session_idle].
Proof.
  exact (subscription_precedes_send (λ _, answers "report")
           "alpha" "/repo/skills/alpha" eq_refl).
Defined.

(** A trailing message without content wipes the earlier report. *)
Lemma contentless_message_erases_report_run :
  outcome (reviewSkill (λ _, trailing_null) "alpha" "/repo/skills/alpha")
  = Returned "".
Proof.
  apply (proj2 (contentless_message_erases_report (λ _, trailing_null)
                  "alpha" "/repo/skills/alpha"
                  [assistant_message (Some "report")]));
    [reflexivity..|by repeat constructor].
Defined.

End Runs.

Section OrchestratorRuns.
Import Node Sdk Review Props Scenarios.

(** A scripted review that returns or throws, by evaluation. *)
Ltac run_completes :=
  let H := fresh in
  unfold completes; intros H; vm_compute in H; discriminate H.

(** One skill fails to be reviewed, the other fails to be published: both
    are attempted, both failures are logged, and the loop returns. *)
Lemma skill_failures_are_isolated_run :
  outcome (for_of ["alpha"; "beta"] (review_and_publish W_mixed "/repo/skills"))
  = Returned ()
  ∧ reviewed (trace (for_of ["alpha"; "beta"]
                       (review_and_publish W_mixed "/repo/skills")))
    = ["alpha"; "beta"]
  ∧ ConsoleError "[Error] Failed to review skill alpha: send failed"
    ∈ trace (for_of ["alpha"; "beta"] (review_and_publish W_mixed "/repo/skills"))
  ∧ ConsoleError "[Error] Failed to create issue for beta: exit status 1"
    ∈ trace (for_of ["alpha"; "beta"] (review_and_publish W_mixed "/repo/skills")).
Proof.
  destruct (skill_failures_are_isolated W_mixed "/repo/skills" ["alpha"; "beta"])
    as [_ Hall].
  destruct Hall as (Hout & Hrev & Hlog & Hgh).
  { repeat (apply List.Forall_cons; [run_completes|]). apply List.Forall_nil. }
  split; [exact Hout|]. split; [exact Hrev|]. split.
  - apply (Hlog "alpha" "send failed"); [by left|reflexivity].
  - apply (Hgh "beta" "report" "exit status 1"); [|reflexivity..].
    apply elem_of_cons; right. by left.
Defined.

(** C6 (counterexample). [--limit -1] is a numeric limit, and the run
    reviews every discovered skill but the last one. *)
Lemma negative_limit_drops_the_last_skill :
  limit W_limit_minus_1 = JS.Int (-1)
  ∧ outcome (discoverSkills W_limit_minus_1 (skills_root W_limit_minus_1))
    = Returned ["alpha"; "beta"]
  ∧ reviewed (trace (main W_limit_minus_1)) = ["alpha"]
  ∧ ¬ numeric_limit_selects_first_N.
Proof.
  split; [reflexivity|]. split; [reflexivity|]. split; [by vm_compute|].
  intros Hclaim.
  specialize (Hclaim W_limit_minus_1 ["alpha"; "beta"] "-1" (-1)
                eq_refl eq_refl eq_refl).
  assert (reviewed (trace (main W_limit_minus_1)) = []) as Hnone.
  { apply Hclaim.
    - intros n. by rewrite reviewSkill_outcome.
    - exists [], []. split; [reflexivity|]. apply not_elem_of_nil.
    - by vm_compute. }
  by vm_compute in Hnone.
Qed.

(** Limit 1 with two discovered skills: exactly one review; a value that
    is not a number: both. *)
Lemma limit_selects_prefix_run :
  (outcome (main W_limit_1) = Returned ()
   ∧ reviewed (trace (main W_limit_1)) = ["alpha"])
  ∧ (outcome (main W_limit_word) = Returned ()
     ∧ reviewed (trace (main W_limit_word)) = ["alpha"; "beta"]).
Proof.
  split.
  - destruct (limit_selects_prefix W_limit_1 ["alpha"; "beta"]
                eq_refl eq_refl eq_refl) as (_ & Hnum & _).
    apply (Hnum "1"); [|by split|by vm_compute|].
    + exists [], ["1"].
      split; [reflexivity|]. split; [apply not_elem_of_nil|reflexivity].
    + change (Forall (completes W_limit_1 (skills_root W_limit_1)) ["alpha"]).
      repeat (apply List.Forall_cons; [run_completes|]). apply List.Forall_nil.
  - destruct (limit_selects_prefix W_limit_word ["alpha"; "beta"]
                eq_refl eq_refl eq_refl) as (_ & _ & Hnan & _).
    apply (Hnan (Some "all")); [|by left|].
    + exists [], ["all"].
      split; [reflexivity|]. split; [apply not_elem_of_nil|reflexivity].
    + repeat (apply List.Forall_cons; [run_completes|]). apply List.Forall_nil.
Defined.

(** The hidden directory is skipped. *)
Lemma discoverSkills_visible_directories_run :
  outcome (discoverSkills W_mixed "/repo/skills") = Returned ["alpha"; "beta"].
Proof.
  destruct (discoverSkills_visible_directories W_mixed "/repo/skills" listing eq_refl)
    as (names & Hout & _ & _ & Hnames).
  rewrite Hout. f_equal. by apply Hnames.
Defined.

(** C8 (counterexample). [GH_PAT] is present but empty: the credential
    used is [GH_TOKEN]. *)
Lemma empty_GH_PAT_is_passed_over :
  env W_empty_pat !! "GH_PAT" = Some ""
  ∧ ghToken W_empty_pat = Some "tok"
  ∧ tokenPrefix W_empty_pat = credential_prefix "tok"
  ∧ ¬ first_present_wins.
Proof.
  split; [by vm_compute|]. split; [by vm_compute|]. split; [by vm_compute|].
  intros Hclaim. specialize (Hclaim W_empty_pat).
  by vm_compute in Hclaim.
Qed.

(** Preview mode with empty reports: nothing is executed. *)
Lemma dry_run_executes_nothing_run :
  executed (trace (main W_dry_run)) = []
  ∧ outcome (reviewSkill (session_script W_dry_run) "alpha"
                         (path_join "/repo/skills" "alpha")) = Returned ""
  ∧ ConsoleError ("[dry-run] Would create issue:" +:+ JS.nl
                  +:+ "  gh issue create --title " +:+ JS.dquote
                  +:+ "Skill Review: alpha" +:+ JS.dquote
                  +:+ " --body " +:+ JS.dquote +:+ "..." +:+ JS.dquote)
    ∈ trace (review_and_publish W_dry_run "/repo/skills" "alpha").
Proof.
  destruct (dry_run_executes_nothing W_dry_run eq_refl) as (Hmain & _ & Hlog).
  split; [exact Hmain|]. split; [reflexivity|].
  by apply (Hlog "/repo/skills" "alpha" "").
Defined.

End OrchestratorRuns.

(** ** The runtime fragments on examples *)

Example parseInt_digits : JS.parseInt (Some "3") = JS.Int 3.
Proof. reflexivity. Qed.

Example parseInt_prefix : JS.parseInt (Some " -12px") = JS.Int (-12).
Proof. reflexivity. Qed.

Example parseInt_word : JS.parseInt (Some "abc") = JS.NaN.
Proof. reflexivity. Qed.

Example parseInt_undefined : JS.parseInt None = JS.NaN.
Proof. reflexivity. Qed.

Example parseInt_no_break_space :
  JS.parseInt (Some (String "194" (String "160" "1"))) = JS.Int 1.
Proof. reflexivity. Qed.

Example parseInt_narrow_no_break_space :
  JS.parseInt (Some (String "226" (String "128" (String "175" "7")))) = JS.Int 7.
Proof. reflexivity. Qed.

Example parseInt_sign_then_space : JS.parseInt (Some "+ 5") = JS.NaN.
Proof. reflexivity. Qed.

Example parseInt_rounds_to_even :
  JS.parseInt (Some "9007199254740993") = JS.Int 9007199254740992
  ∧ JS.parseInt (Some "9007199254740995") = JS.Int 9007199254740996.
Proof. by vm_compute. Qed.

Example parseInt_largest_double :
  JS.to_double (2 ^ 1024 - 2 ^ 970 - 1) = JS.Int (2 ^ 1024 - 2 ^ 971)
  ∧ JS.to_double (2 ^ 1024 - 2 ^ 970) = JS.Infinity
  ∧ JS.to_double (- (2 ^ 1024 - 2 ^ 970)) = JS.NegInfinity.
Proof. by vm_compute. Qed.

Example parseInt_overflows :
  JS.parseInt (Some (Scenarios.nines 309)) = JS.Infinity
  ∧ JS.parseInt (Some ("-" +:+ Scenarios.nines 309)) = JS.NegInfinity.
Proof. by vm_compute. Qed.

Example limit_with_trailing_text :
  Review.limit (Scenarios.world ["--limit"; "1abc"] ∅ (λ _, Scenarios.silent) None)
  = JS.Int 1
  ∧ Props.reviewed
      (trace (Review.main (Scenarios.world ["--limit"; "1abc"] ∅
                                           (λ _, Scenarios.silent) None)))
    = ["alpha"].
Proof. by vm_compute. Qed.

Example limit_beyond_every_double :
  Review.limit (Scenarios.world ["--limit"; Scenarios.nines 309] ∅ (λ _, Scenarios.silent) None)
  = JS.Infinity
  ∧ Props.reviewed
      (trace (Review.main (Scenarios.world ["--limit"; Scenarios.nines 309] ∅
                                           (λ _, Scenarios.silent) None)))
    = ["alpha"; "beta"].
Proof. by vm_compute. Qed.

Example slice_negative_end :
  JS.slice ["a"; "b"; "c"] (JS.Int 0) (JS.Int (-1)) = ["a"; "b"].
Proof. reflexivity. Qed.

Example slice_past_the_end :
  JS.slice ["a"; "b"; "c"] (JS.Int 0) (JS.Int 7) = ["a"; "b"; "c"].
Proof. reflexivity. Qed.

Example escape_dquotes_quote :
  JS.escape_dquotes ("a" +:+ JS.dquote +:+ "b") = "a\" +:+ JS.dquote +:+ "b".
Proof. reflexivity. Qed.

Example limit_without_value :
  Review.limit (Scenarios.world ["--dry-run"; "--limit"] ∅ (λ _, Scenarios.silent) None)
  = JS.NaN.
Proof. reflexivity. Qed.

(** ** Further properties of the session controller *)

Section ControllerCoverage.
Import Node Sdk Review Props Coverage.

Lemma idle_or_not es : no_idle es ∨ session_idle ∈ es.
Proof.
  induction es as [|e es [IH|IH]].
  - left. constructor.
  - destruct e; try (left; constructor; [discriminate|exact IH]).
    right. by left.
  - right. by right.
Qed.

Lemma run_listener_unsettled es :
  done (run_listener es fresh) = JS.Unsettled ↔ no_idle es.
Proof.
  split.
  - intros Hdone. destruct (idle_or_not es) as [|Hin]; [done|].
    destruct (run_listener_idle_settles es fresh Hin) as [v Hv]. congruence.
  - intros Hes. by rewrite run_listener_no_idle.
Qed.

Lemma run_listener_relevant es l :
  run_listener (List.filter relevant es) l = run_listener es l.
Proof.
  revert l; induction es as [|e es IH]; intros l; [done|].
  destruct e; simpl; try apply IH.
Qed.

(** When the session cannot be created, [reviewSkill] fails with the
    creation error right after the [createSession] call: it never
    subscribes, sends or destroys, and whatever the session emitted in the
    meantime is lost. *)
Theorem reviewSkill_creation_failure client skillName skillPath err :
  create_error (client skillName) = Some err →
  outcome (reviewSkill client skillName skillPath) = Threw err
  ∧ sdk_calls (trace (reviewSkill client skillName skillPath))
    = [CreateSession "gpt-5.2-codex" false [listDirectory; readFile]]
  ∧ delivered (trace (reviewSkill client skillName skillPath)) = []
  ∧ dropped (trace (reviewSkill client skillName skillPath))
    = emitted_on_create (client skillName).
Proof.
  intros Hc. rewrite (reviewSkill_not_created _ _ _ _ Hc).
  split; [done|]. unfold trace, snd. split; [|split].
  - by rewrite sdk_calls_app, sdk_calls_dropped.
  - unfold delivered. rewrite omap_app.
    rewrite (omap_none_Forall _ is_delivery_drop (map Dropped _)); [done| |].
    + by intros [].
    + by apply Forall_fmap, Forall_true.
  - unfold dropped. rewrite omap_app. simpl.
    induction (emitted_on_create (client skillName)) as [|e es IH]; [done|].
    simpl. f_equal. exact IH.
Qed.

(** A session that was created and took the prompt, and never emits
    [session.idle], makes [reviewSkill] wait forever: it neither returns
    nor throws, and the session is never destroyed. *)
Theorem reviewSkill_waits_forever_without_idle client skillName skillPath :
  create_error (client skillName) = None →
  send_error (client skillName) = None →
  no_idle (emitted_after_prompt (client skillName)) →
  outcome (reviewSkill client skillName skillPath) = Stalled
  ∧ SessionDestroy ∉ trace (reviewSkill client skillName skillPath).
Proof.
  intros Hc Hs Hno. apply run_listener_unsettled in Hno. split.
  - by rewrite reviewSkill_outcome, Hs, Hno.
  - intros Hin%sdk_calls_destroy.
    rewrite reviewSkill_sdk_calls, Hs, Hno in Hin by done. simpl in Hin.
    repeat (apply elem_of_cons in Hin as [Hin|Hin]; [done|]).
    by apply elem_of_nil in Hin.
Qed.

(** What [reviewSkill] returns or throws depends only on which SDK calls
    fail and on the [assistant.message] and [session.idle] events emitted
    after the prompt, in order: the skill's name and path, tool and other
    events, events emitted before the subscription, and whether an event
    arrives while [send] is in flight or later, make no difference. *)
Theorem report_depends_only_on_messages_and_idle
    client1 skillName1 skillPath1 client2 skillName2 skillPath2 :
  create_error (client1 skillName1) = create_error (client2 skillName2) →
  send_error (client1 skillName1) = send_error (client2 skillName2) →
  destroy_error (client1 skillName1) = destroy_error (client2 skillName2) →
  List.filter relevant (emitted_after_prompt (client1 skillName1))
  = List.filter relevant (emitted_after_prompt (client2 skillName2)) →
  outcome (reviewSkill client1 skillName1 skillPath1)
  = outcome (reviewSkill client2 skillName2 skillPath2).
Proof.
  intros Hc Hs Hd Hev.
  destruct (create_error (client1 skillName1)) as [err|] eqn:Hc1.
  - symmetry in Hc.
    by rewrite (reviewSkill_not_created _ _ _ _ Hc1),
               (reviewSkill_not_created _ _ _ _ Hc).
  - symmetry in Hc. rewrite !reviewSkill_outcome by done.
    rewrite Hs, Hd.
    rewrite <- (run_listener_relevant (emitted_after_prompt (client1 skillName1))).
    rewrite <- (run_listener_relevant (emitted_after_prompt (client2 skillName2))).
    by rewrite Hev.
Qed.

End ControllerCoverage.

(** ** Further properties of the orchestrator *)

Section OrchestratorCoverage.
Import Node Sdk Review Props Coverage.

Lemma reviewSkill_effects client skillName skillPath :
  Forall review_effect (trace (reviewSkill client skillName skillPath)).
Proof.
  assert (Hd : ∀ es s, Forall review_effect (trace (emit_all es s))).
  { intros. eapply Forall_impl; [apply emit_all_trace|]. by intros []. }
  assert (Hm : ∀ es, Forall review_effect (map Dropped es)).
  { intros. by apply Forall_fmap, Forall_true. }
  destruct (create_error (client skillName)) as [err|] eqn:Hc.
  - rewrite (reviewSkill_not_created _ _ _ _ Hc). unfold trace, snd.
    apply Forall_app; split; [by repeat constructor|apply Hm].
  - rewrite (reviewSkill_created _ _ _ Hc). cbv zeta.
    destruct (send_error _); [|destruct (done _)]; unfold trace at 1, snd;
      repeat (apply Forall_app; split); try apply Hd; try apply Hm;
      by repeat constructor.
Qed.

Lemma reviewSkill_printed client skillName skillPath :
  printed (trace (reviewSkill client skillName skillPath)) = [].
Proof.
  apply (omap_none_Forall _ review_effect); [by intros []|].
  apply reviewSkill_effects.
Qed.

Lemma printed_app t1 t2 : printed (t1 ++ t2) = printed t1 ++ printed t2.
Proof. apply omap_app. Qed.

Lemma printed_child_writes W command : printed (child_writes W command) = [].
Proof.
  apply (omap_none_Forall _ child_effect); [by intros []|].
  apply child_writes_effects.
Qed.

(** What one iteration prints and executes, by the way the review ends. *)
Lemma review_and_publish_printed W skillsDir n :
  printed (trace (review_and_publish W skillsDir n))
  = match report_of W skillsDir n with
    | Some report => report_block n report
    | None => []
    end.
Proof.
  rewrite review_and_publish_eq. unfold report_of.
  destruct (outcome (reviewSkill _ _ _)) as [report|err|] eqn:Ho;
    unfold trace at 1, snd; rewrite ?printed_app, reviewSkill_printed; try done.
  rewrite createGitHubIssue_eq. destruct (dryRun W); [done|].
  unfold trace, snd. change (printed (ExecSync ?c :: ?t)) with (printed t).
  by rewrite printed_app, printed_child_writes.
Qed.

Lemma stdout_app t1 t2 : stdout (t1 ++ t2) = stdout t1 ++ stdout t2.
Proof. apply omap_app. Qed.

Lemma reviewSkill_stdout client skillName skillPath :
  stdout (trace (reviewSkill client skillName skillPath)) = [].
Proof.
  apply (omap_none_Forall _ review_effect); [by intros []|].
  apply reviewSkill_effects.
Qed.

Lemma createGitHubIssue_stdout W skillName report :
  stdout (trace (createGitHubIssue W skillName report))
  = child_stdout W (issue_command W ("Skill Review: " +:+ skillName) report).
Proof.
  rewrite createGitHubIssue_eq. unfold trace, snd, child_stdout.
  change (stdout (ExecSync ?c :: ?t)) with (stdout t).
  rewrite stdout_app. by rewrite app_nil_r.
Qed.

(** What reaches standard output in one iteration. *)
Lemma review_and_publish_stdout W skillsDir n :
  stdout (trace (review_and_publish W skillsDir n))
  = match report_of W skillsDir n with
    | Some report =>
        report_block n report
        ++ (if dryRun W then []
            else child_stdout W (issue_command W ("Skill Review: " +:+ n) report))
    | None => []
    end.
Proof.
  rewrite review_and_publish_eq. unfold report_of.
  destruct (outcome (reviewSkill _ _ _)) as [report|err|] eqn:Ho;
    unfold trace at 1, snd; rewrite ?stdout_app, reviewSkill_stdout; try done.
  destruct (dryRun W); [done|].
  by rewrite createGitHubIssue_stdout.
Qed.

Lemma review_and_publish_executed W skillsDir n :
  dryRun W = false →
  executed (trace (review_and_publish W skillsDir n))
  = match report_of W skillsDir n with
    | Some report => [issue_command W ("Skill Review: " +:+ n) report]
    | None => []
    end.
Proof.
  intros Hdry. rewrite review_and_publish_eq, Hdry. unfold report_of.
  destruct (outcome (reviewSkill _ _ _)) as [report|err|] eqn:Ho;
    unfold trace at 1, snd; rewrite ?executed_app, reviewSkill_executed; try done.
  by rewrite createGitHubIssue_executed.
Qed.

(** A review that throws after the report was obtained, because
    [session.destroy] fails, loses the report: the iteration prints no
    report block and files no ticket; it logs the error and goes on. *)
Theorem destroy_failure_loses_the_report W skillsDir skillName err :
  create_error (session_script W skillName) = None →
  send_error (session_script W skillName) = None →
  session_idle ∈ emitted_after_prompt (session_script W skillName) →
  destroy_error (session_script W skillName) = Some err →
  outcome (reviewSkill (session_script W) skillName
                       (path_join skillsDir skillName)) = Threw err
  ∧ outcome (review_and_publish W skillsDir skillName) = Returned ()
  ∧ printed (trace (review_and_publish W skillsDir skillName)) = []
  ∧ executed (trace (review_and_publish W skillsDir skillName)) = []
  ∧ last (trace (review_and_publish W skillsDir skillName))
    = Some (ConsoleError ("[Error] Failed to review skill " +:+ skillName
                          +:+ ": " +:+ err)).
Proof.
  intros Hc Hs Hidle Hd.
  destruct (run_listener_idle_settles _ fresh Hidle) as [v Hv].
  assert (Hthrew : outcome (reviewSkill (session_script W) skillName
                              (path_join skillsDir skillName)) = Threw err).
  { by rewrite reviewSkill_outcome, Hs, Hv, Hd. }
  split; [done|]. split; [|split; [|split]].
  - by rewrite review_and_publish_eq, Hthrew.
  - rewrite review_and_publish_printed. unfold report_of. by rewrite Hthrew.
  - rewrite review_and_publish_eq, Hthrew. unfold trace at 1, snd.
    by rewrite executed_app, reviewSkill_executed.
  - rewrite review_and_publish_eq, Hthrew. unfold trace at 1, snd.
    apply last_snoc.
Qed.

(** Standard output, the script's own printing and what [gh] writes
    there taken together, is in skill order, for each skill whose review
    returned a report, the delimited block of that report followed,
    outside preview mode, by the output of the [gh] command filed for it;
    skills whose review threw contribute nothing. *)
Theorem stdout_is_the_report_blocks W skillsDir skills :
  Forall (completes W skillsDir) skills →
  stdout (trace (for_of skills (review_and_publish W skillsDir)))
  = flat_map (λ n, match report_of W skillsDir n with
                   | Some report =>
                       report_block n report
                       ++ (if dryRun W then []
                           else child_stdout W
                                  (issue_command W ("Skill Review: " +:+ n) report))
                   | None => []
                   end) skills.
Proof.
  induction 1 as [|n skills Hn _ IH]; [done|].
  rewrite for_of_cons, trace_bind, (review_and_publish_completes _ _ _ Hn).
  rewrite stdout_app, review_and_publish_stdout, IH. reflexivity.
Qed.

(** Outside preview mode, exactly one [gh issue create] command is run
    for each skill whose review returned a report (an empty report
    included), in skill order, titled after the skill and carrying the
    report as body; a skill whose review failed gets no ticket. *)
Theorem tickets_follow_the_reports W skillsDir skills :
  dryRun W = false →
  Forall (completes W skillsDir) skills →
  executed (trace (for_of skills (review_and_publish W skillsDir)))
  = flat_map (λ n, match report_of W skillsDir n with
                   | Some report =>
                       [issue_command W ("Skill Review: " +:+ n) report]
                   | None => []
                   end) skills.
Proof.
  intros Hdry. induction 1 as [|n skills Hn _ IH]; [done|].
  rewrite for_of_cons, trace_bind, (review_and_publish_completes _ _ _ Hn).
  rewrite executed_app, review_and_publish_executed, IH by done. reflexivity.
Qed.

(** A review that never completes stops the loop there. *)
Lemma for_of_stalls W skillsDir before n after :
  Forall (completes W skillsDir) before →
  outcome (reviewSkill (session_script W) n (path_join skillsDir n)) = Stalled →
  outcome (for_of (before ++ n :: after) (review_and_publish W skillsDir))
  = Stalled
  ∧ reviewed (trace (for_of (before ++ n :: after)
                            (review_and_publish W skillsDir)))
    = before ++ [n].
Proof.
  intros Hall Hst. induction Hall as [|m before Hm _ [IHo IHt]].
  - simpl app. rewrite for_of_cons, outcome_bind, trace_bind.
    rewrite review_and_publish_eq, Hst. unfold outcome at 1 2, trace at 1 2, fst, snd.
    split; [done|]. by rewrite app_nil_r, reviewSkill_reviewed.
  - simpl app. rewrite for_of_cons, outcome_bind, trace_bind.
    rewrite (review_and_publish_completes _ _ _ Hm), reviewed_app.
    by rewrite review_and_publish_reviewed, IHt.
Qed.

End OrchestratorCoverage.

(** ** Further properties of [main] *)

Section MainCoverage.
Import Node Sdk Review Props Coverage.

(** Projections of an explicit outcome/trace pair. *)
Ltac pair_proj :=
  repeat match goal with
         | |- context [outcome (?o, ?t)] => change (outcome (o, t)) with o
         | |- context [trace (?o, ?t)] => change (trace (o, t)) with t
         end.

(** [main], once discovery has returned: what precedes the client's
    start, and how the run ends. *)
Lemma main_after_discovery W found :
  outcome (discoverSkills W (skills_root W)) = Returned found →
  ∃ setup,
    Forall setup_effect setup
    ∧ main W
      = (match client_start_error W with
         | Some err => Threw err
         | None =>
             match outcome (for_of (selected W found)
                                   (review_and_publish W (skills_root W))) with
             | Returned _ =>
                 match client_stop_error W with
                 | Some err => Threw err
                 | None => Returned ()
                 end
             | Threw err => Threw err
             | Stalled => Stalled
             end
         end,
         setup ++ ClientStart ::
         match client_start_error W with
         | Some _ => []
         | None =>
             trace (for_of (selected W found)
                           (review_and_publish W (skills_root W)))
             ++ match outcome (for_of (selected W found)
                                      (review_and_publish W (skills_root W))) with
                | Returned _ =>
                    ClientStop ::
                    match client_stop_error W with
                    | Some _ => []
                    | None => [ConsoleError (JS.nl +:+ "Done.")]
                    end
                | _ => []
                end
         end).
Proof.
  intros Hfound. unfold main, selected. cbv zeta.
  rewrite discoverSkills_eq in Hfound |- *.
  destruct (readdir W (skills_root W)) as [err|entries]; [done|].
  injection Hfound as Hfound. rewrite Hfound.
  unfold mbind, M_bind, bind, tell, mret, M_ret, fail_if, throw, ret.
  destruct (JS.lt_Infinity (limit W)); cbv beta iota.
  - eexists [_; _; _; _]. split; cycle 1.
    { destruct (client_start_error W); [reflexivity|].
      match goal with
      | |- context [for_of ?l ?b] => generalize (for_of l b)
      end. intros [[[]|e|] t]; unfold outcome, trace, fst, snd;
        try destruct (client_stop_error W); cbn [app]; by rewrite ?app_nil_r. }
    by repeat constructor.
  - eexists [_; _; _]. split; cycle 1.
    { destruct (client_start_error W); [reflexivity|].
      match goal with
      | |- context [for_of ?l ?b] => generalize (for_of l b)
      end. intros [[[]|e|] t]; unfold outcome, trace, fst, snd;
        try destruct (client_stop_error W); cbn [app]; by rewrite ?app_nil_r. }
    by repeat constructor.
Qed.

Lemma client_calls_app t1 t2 :
  client_calls (t1 ++ t2) = client_calls t1 ++ client_calls t2.
Proof. apply List.filter_app. Qed.

Lemma client_calls_setup t : Forall setup_effect t → client_calls t = [].
Proof. induction 1 as [|e t He _ IH]; [done|]. by destruct e. Qed.

Lemma client_calls_review W skillsDir n :
  client_calls (trace (review_and_publish W skillsDir n)) = [].
Proof.
  assert (Hr : client_calls (trace (reviewSkill (session_script W) n
                                      (path_join skillsDir n))) = []).
  { generalize (reviewSkill_effects (session_script W) n (path_join skillsDir n)).
    induction 1 as [|e t He _ IH]; [done|]. by destruct e. }
  rewrite review_and_publish_eq.
  destruct (outcome (reviewSkill _ _ _)) as [report|err|]; unfold trace at 1, snd;
    rewrite ?client_calls_app, Hr; try done.
  destruct (dryRun W); [done|]. rewrite createGitHubIssue_eq.
  unfold trace, snd. change (client_calls (ExecSync ?c :: ?t)) with (client_calls t).
  rewrite client_calls_app. cbn [app].
  replace (client_calls (child_writes W _)) with (@nil Effect); [done|].
  symmetry. generalize (child_writes_effects W
    (issue_command W ("Skill Review: " +:+ n) report)).
  induction 1 as [|e t He _ IH]; [done|]. by destruct e.
Qed.

Lemma client_calls_loop W skillsDir skills :
  client_calls (trace (for_of skills (review_and_publish W skillsDir))) = [].
Proof.
  induction skills as [|n skills IH]; [done|].
  rewrite for_of_cons, trace_bind, client_calls_app, client_calls_review.
  by destruct (outcome _).
Qed.

Lemma Forall_slice {A} (P : A → Prop) (l : list A) a b :
  Forall P l → Forall P (JS.slice l a b).
Proof. intros Hl. unfold JS.slice. by apply Forall_take, Forall_drop. Qed.

Lemma Forall_selected W (P : string → Prop) found :
  Forall P found → Forall P (selected W found).
Proof.
  intros Hl. unfold selected.
  destruct (JS.lt_Infinity _); [by apply Forall_slice|done].
Qed.

(** A skills directory that cannot be listed ends the run at once: [main]
    fails with the listing error, having only announced the discovery;
    the client is never started and nothing is reviewed. *)
Theorem discovery_failure_is_fatal W err :
  readdir W (skills_root W) = inl err →
  main W
  = (Threw err,
     [ConsoleError ("Discovering skills in " +:+ skills_root W +:+ "...");
      Readdir (skills_root W)]).
Proof.
  intros Hread. unfold main. cbv zeta. by rewrite discoverSkills_eq, Hread.
Qed.

(** When the client fails to start, [main] fails with that error without
    reviewing any skill, running any command or stopping the client. *)
Theorem client_start_failure_aborts W found err :
  outcome (discoverSkills W (skills_root W)) = Returned found →
  client_start_error W = Some err →
  outcome (main W) = Threw err
  ∧ client_calls (trace (main W)) = [ClientStart]
  ∧ reviewed (trace (main W)) = []
  ∧ executed (trace (main W)) = []
  ∧ last (trace (main W)) = Some ClientStart.
Proof.
  intros Hfound Hstart.
  destruct (main_after_discovery W found Hfound) as (setup & Hsetup & ->).
  rewrite Hstart. unfold outcome, trace, fst, snd.
  split; [done|]. split; [|split; [|split]].
  - by rewrite client_calls_app, client_calls_setup.
  - unfold reviewed. rewrite omap_app.
    by rewrite (omap_none_Forall _ setup_effect setup); [| intros [] |].
  - unfold executed. rewrite omap_app.
    by rewrite (omap_none_Forall _ setup_effect setup); [| intros [] |].
  - apply last_snoc.
Qed.

(** Once started, the client is stopped exactly once, after the last
    review, whenever every selected review completes, however the
    reviews and the tickets turn out; a failure to stop is then the only
    error [main] can end with. *)
Theorem client_is_stopped_after_the_loop W found :
  outcome (discoverSkills W (skills_root W)) = Returned found →
  client_start_error W = None →
  Forall (completes W (skills_root W)) found →
  client_calls (trace (main W)) = [ClientStart; ClientStop]
  ∧ outcome (main W)
    = match client_stop_error W with
      | Some err => Threw err
      | None => Returned ()
      end
  ∧ reviewed (trace (main W)) = selected W found.
Proof.
  intros Hfound Hstart Hall.
  destruct (main_after_discovery W found Hfound) as (setup & Hsetup & ->).
  destruct (for_of_completes W (skills_root W) (selected W found)) as [Ho Ht];
    [by apply Forall_selected|].
  rewrite Hstart, Ho. pair_proj.
  split; [|split; [done|]].
  - rewrite client_calls_app, client_calls_setup by done.
    change (client_calls (ClientStart :: ?t)) with (ClientStart :: client_calls t).
    rewrite client_calls_app, client_calls_loop.
    by destruct (client_stop_error W).
  - rewrite reviewed_app. unfold reviewed at 1.
    rewrite (omap_none_Forall _ setup_effect setup); [| by intros [] |done].
    change (reviewed (ClientStart :: ?t)) with (reviewed t).
    rewrite reviewed_app, Ht.
    by destruct (client_stop_error W); rewrite app_nil_r.
Qed.

(** A review that never completes keeps [main] from completing: the
    skills selected before it are reviewed, those after it never are, and
    the client is never stopped. *)
Theorem stalled_review_stalls_main W found before n after :
  outcome (discoverSkills W (skills_root W)) = Returned found →
  client_start_error W = None →
  selected W found = before ++ n :: after →
  Forall (completes W (skills_root W)) before →
  outcome (reviewSkill (session_script W) n (path_join (skills_root W) n))
  = Stalled →
  outcome (main W) = Stalled
  ∧ client_calls (trace (main W)) = [ClientStart]
  ∧ reviewed (trace (main W)) = before ++ [n].
Proof.
  intros Hfound Hstart Hsel Hall Hst.
  destruct (main_after_discovery W _ Hfound) as (setup & Hsetup & ->).
  rewrite Hsel, Hstart.
  destruct (for_of_stalls W (skills_root W) before n after Hall Hst) as [Ho Ht].
  rewrite Ho. pair_proj.
  split; [done|]. split.
  - rewrite client_calls_app, client_calls_setup by done.
    change (client_calls (ClientStart :: ?t)) with (ClientStart :: client_calls t).
    by rewrite app_nil_r, client_calls_loop.
  - rewrite reviewed_app. unfold reviewed at 1.
    rewrite (omap_none_Forall _ setup_effect setup); [| by intros [] |done].
    change (reviewed (ClientStart :: ?t)) with (reviewed t).
    by rewrite app_nil_r.
Qed.

End MainCoverage.

(** ** Further properties of the command line *)

Section CommandLineCoverage.
Import Node Sdk Review Props Coverage.

Lemma append_cons c r s : String c r +:+ s = String c (r +:+ s).
Proof. reflexivity. Qed.

Lemma append_nil s : "" +:+ s = s.
Proof. reflexivity. Qed.

(** White space in front is skipped, whatever follows it. *)
Lemma trim_start_white_space ws s :
  white_space_only ws → JS.trim_start (ws +:+ s) = JS.trim_start s.
Proof.
  unfold white_space_only.
  assert (Hn : ∀ n ws, (String.length ws ≤ n)%nat →
                 JS.trim_start ws = "" →
                 JS.trim_start (ws +:+ s) = JS.trim_start s).
  { clear ws. induction n as [|n IH]; intros ws Hlen Hws.
    { destruct ws; [done|simpl in Hlen; lia]. }
    destruct ws as [|c r]; [done|].
    rewrite append_cons. cbn [JS.trim_start] in Hws |- *.
    destruct (JS.is_white_space c).
    { apply IH; [simpl in Hlen; lia|done]. }
    destruct r as [|d r1]; [done|].
    rewrite append_cons.
    destruct (JS.is_white_space2 c d).
    { apply IH; [simpl in Hlen; lia|done]. }
    destruct r1 as [|e r2]; [done|].
    rewrite append_cons.
    destruct (JS.is_white_space3 c d e); [|done].
    apply IH; [simpl in Hlen; lia|done]. }
  by apply (Hn (String.length ws)).
Qed.




Lemma digit_value_is_digit c :
  JS.digit_value c
  = if is_digit c then Some (Z.of_nat (nat_of_ascii c) - 48) else None.
Proof. reflexivity. Qed.


(** The sign step of [parseInt] on a string that does not start with a
    sign. *)
Lemma sign_step_unsigned c r :
  c ≠ "-"%char → c ≠ "+"%char →
  (match String c r with
   | String "-"%char r0 => (-1, r0)
   | String "+"%char r0 => (1, r0)
   | _ => (1, String c r)
   end) = (1, String c r).
Proof.
  intros Hm Hp.
  destruct c as [[] [] [] [] [] [] [] []]; try reflexivity; congruence.
Qed.

(** What [parseInt] does with its input once the white space in front is
    gone: the sign and the body it goes on with. *)
Lemma parseInt_signed ws sg body :
  white_space_only ws →
  (sg = NoSign → JS.trim_start body = body ∧ no_leading_sign body = true) →
  JS.parseInt (Some (ws +:+ sign_text sg +:+ body))
  = match JS.parse_digits body false 0 with
    | (true, n) => JS.to_double (sign_factor sg * n)
    | (false, _) => JS.NaN
    end.
Proof.
  intros Hws Hsg. unfold JS.parseInt, JS.ToString.
  rewrite trim_start_white_space by done.
  destruct sg; cbn [sign_text sign_factor]; rewrite ?append_cons, ?append_nil.
  - destruct (Hsg eq_refl) as [Htrim Hsign]. rewrite Htrim.
    destruct body as [|c r]; [done|].
    cbn [no_leading_sign] in Hsign. apply negb_true_iff in Hsign.
    apply orb_false_iff in Hsign as [Hplus Hminus].
    apply Ascii.eqb_neq in Hplus, Hminus.
    by rewrite sign_step_unsigned.
  - rewrite trim_start_ascii; [reflexivity|reflexivity|].
    change (nat_of_ascii "+") with 43%nat. lia.
  - rewrite trim_start_ascii; [reflexivity|reflexivity|].
    change (nat_of_ascii "-") with 45%nat. lia.
Qed.


(** Without a digit right after the white space and the optional sign,
    [parseInt] yields [NaN]: for the empty string, a word, a lone or
    doubled sign, a sign followed by a space. *)
Theorem parseInt_without_digits ws sg rest :
  white_space_only ws →
  no_leading_digit rest = true →
  (sg = NoSign → JS.trim_start rest = rest ∧ no_leading_sign rest = true) →
  JS.parseInt (Some (ws +:+ sign_text sg +:+ rest)) = JS.NaN.
Proof.
  intros Hws Hrest Hsg. rewrite parseInt_signed by done.
  destruct rest as [|c r]; [done|].
  cbn [no_leading_digit] in Hrest. apply negb_true_iff in Hrest.
  cbn [JS.parse_digits]. by rewrite digit_value_is_digit, Hrest.
Qed.

(** The script looks at [process.argv] from its third element on, and
    copes with a shorter [argv]; [--dry-run] counts wherever it stands
    among those arguments. *)
Theorem args_skip_node_and_script W :
  args W = drop 2 (argv W)
  ∧ (dryRun W = true ↔ "--dry-run" ∈ drop 2 (argv W)).
Proof.
  assert (Hargs : args W = drop 2 (argv W)).
  { unfold args, JS.slice, JS.relative.
    change (2 <? 0) with false. cbv iota.
    destruct (Z.min_spec 2 (Z.of_nat (length (argv W)))) as [[Hlt ->]|[Hle ->]].
    - change (Z.to_nat 2) with 2%nat. apply take_ge.
      rewrite length_drop. lia.
    - rewrite Nat2Z.id, Z.sub_diag. rewrite !drop_ge by lia. done. }
  split; [done|]. unfold dryRun, JS.includes. rewrite Hargs.
  apply bool_decide_eq_true.
Qed.

(** Only the first [--limit] counts, and its value is whatever argument
    follows it, even another flag; when nothing follows, the limit is
    [NaN] and the run is unbounded. *)
Theorem limit_reads_the_first_flag W before rest :
  args W = before ++ "--limit" :: rest →
  "--limit" ∉ before →
  limit W = JS.parseInt (head rest)
  ∧ (rest = [] → limit W = JS.NaN ∧ JS.lt_Infinity (limit W) = false).
Proof.
  intros Hargs Hnot.
  assert (Hlimit : limit W = JS.parseInt (head rest)).
  { apply limit_of_flag. by exists before, rest. }
  split; [done|]. intros ->. by rewrite Hlimit.
Qed.

(** The test [limit < Infinity] fails, so that no skill is cut off,
    exactly when no [--limit] flag is given or the value after the first
    one parses to [NaN] or to [Infinity]. *)
Theorem limit_unbounded_iff W :
  JS.lt_Infinity (limit W) = false
  ↔ "--limit" ∉ args W
    ∨ ∃ value, limit_flag W value
               ∧ (JS.parseInt value = JS.NaN ∨ JS.parseInt value = JS.Infinity).
Proof.
  assert (Hflag : "--limit" ∈ args W → ∃ value, limit_flag W value).
  { intros (before & after & Hargs & Hnot)%list_elem_of_split_l.
    exists (head after). by exists before, after. }
  split.
  - intros Hlt. destruct (decide ("--limit" ∈ args W)) as [Hin|]; [|by left].
    right. destruct (Hflag Hin) as [value Hvalue]. exists value.
    split; [done|]. rewrite (limit_of_flag _ _ Hvalue) in Hlt.
    destruct (JS.parseInt value); try done; [by left|by right].
  - intros [Hnot|(value & Hvalue & [Hnan|Hinf])].
    + by rewrite (limit_without_flag _ Hnot).
    + by rewrite (limit_of_flag _ _ Hvalue), Hnan.
    + by rewrite (limit_of_flag _ _ Hvalue), Hinf.
Qed.

(** [slice(0, N)] for a negative [N] drops the last [-N] elements. *)
Lemma slice_drop_last {A} (l : list A) N :
  N < 0 →
  JS.slice l (JS.Int 0) (JS.Int N) = take (length l - Z.to_nat (- N)) l.
Proof.
  intros HN. unfold JS.slice, JS.relative.
  destruct (Z.ltb_spec N 0) as [_|?]; [|lia].
  change (0 <? 0) with false. cbv iota.
  replace (0 `min` Z.of_nat (length l)) with 0 by lia.
  rewrite Z.sub_0_r. change (drop (Z.to_nat 0) l) with l.
  f_equal. lia.
Qed.

(** A negative limit does not select a prefix by length: it drops that
    many skills from the end of the discovered sequence, all of them if
    there are no more. *)
Theorem negative_limit_drops_from_the_end W found value N :
  outcome (discoverSkills W (skills_root W)) = Returned found →
  client_start_error W = None →
  Forall (completes W (skills_root W)) found →
  limit_flag W value →
  JS.parseInt value = JS.Int N →
  N < 0 →
  reviewed (trace (main W)) = take (length found - Z.to_nat (- N)) found.
Proof.
  intros Hfound Hstart Hall Hflag Hparse HN.
  destruct (main_around_loop W found Hfound Hstart) as [Ht _].
  cbv zeta in Ht.
  rewrite (limit_of_flag _ _ Hflag), Hparse in Ht. simpl in Ht.
  rewrite Ht, slice_drop_last by done.
  by apply for_of_completes, Forall_take.
Qed.

End CommandLineCoverage.

(** ** Further properties of discovery, the publisher and the tools *)

Section PublisherCoverage.
Import Node Sdk Review Props Coverage.

Lemma visible_sublist (entries : list Dirent) :
  map Node.name
      (List.filter (λ e, isDirectory e && negb (JS.startsWith (Node.name e) "."))
                   entries)
  `sublist_of` map Node.name entries.
Proof.
  induction entries as [|e es IH]; [constructor|]. simpl.
  destruct (_ && _); simpl; by constructor.
Qed.

(** [discoverSkills] lists the directory once and does nothing else; it
    returns no more names than there are entries and, the entries having
    distinct names, no name twice. *)
Theorem discoverSkills_keeps_names_distinct W skillsDir entries :
  readdir W skillsDir = inr entries →
  NoDup (map Node.name entries) →
  ∃ names,
    discoverSkills W skillsDir = (Returned names, [Readdir skillsDir])
    ∧ NoDup names
    ∧ (length names ≤ length entries)%nat.
Proof.
  intros Hread Hnodup. rewrite discoverSkills_eq, Hread.
  eexists; split; [done|]. split.
  - eapply sublist_NoDup; [done|apply visible_sublist].
  - rewrite <- (length_map Node.name entries).
    apply sublist_length, visible_sublist.
Qed.

(** [createGitHubIssue] never throws, whatever [gh] does: it runs exactly
    one command, writes nothing on standard output itself, so that all
    that arrives there is what the [gh] process, which inherits the
    stream, writes, and reports success exactly when the command
    succeeded. *)
Theorem createGitHubIssue_never_throws W skillName report :
  outcome (createGitHubIssue W skillName report) = Returned ()
  ∧ length (executed (trace (createGitHubIssue W skillName report))) = 1%nat
  ∧ stdout (trace (createGitHubIssue W skillName report))
    = child_stdout W (issue_command W ("Skill Review: " +:+ skillName) report)
  ∧ (ConsoleError ("[Issue] Created issue for " +:+ skillName)
     ∈ trace (createGitHubIssue W skillName report)
     ↔ execSync_error W (issue_command W ("Skill Review: " +:+ skillName) report)
       = None).
Proof.
  split; [by rewrite createGitHubIssue_eq|].
  split; [by rewrite createGitHubIssue_executed|].
  split.
  { rewrite createGitHubIssue_eq. unfold trace, snd, child_stdout.
    change (stdout (ExecSync ?c :: ?t)) with (stdout t).
    by rewrite (omap_app _ _ _ : stdout (_ ++ _) = _), app_nil_r. }
  rewrite createGitHubIssue_eq. unfold trace, snd.
  assert (Hchild : ∀ text command, ConsoleError text ∉ child_writes W command).
  { intros text command Hin.
    by apply (proj1 (Forall_forall _ _) (child_writes_effects W command)) in Hin. }
  destruct (execSync_error W _) as [err|]; split; try done.
  - intros Hin. apply elem_of_cons in Hin as [Hin|Hin]; [done|].
    apply elem_of_app in Hin as [Hin|Hin]; [by apply Hchild in Hin|].
    apply list_elem_of_singleton in Hin. by injection Hin.
  - intros _. apply elem_of_cons; right. apply elem_of_app; right.
    by apply list_elem_of_singleton.
Qed.

Lemma escape_dquotes_cons c r :
  JS.escape_dquotes (String c r)
  = if Ascii.eqb c "034"%char
    then String "\" (String c (JS.escape_dquotes r))
    else String c (JS.escape_dquotes r).
Proof. reflexivity. Qed.

(** In the escaped title every double quote comes right after a
    backslash, so none of them closes the quoted shell word by itself; a
    title without double quotes is passed unchanged, backslashes
    included. *)
Theorem escape_dquotes_guards_every_quote s prev :
  quotes_escaped prev (JS.escape_dquotes s) = true
  ∧ (has_dquote s = false → JS.escape_dquotes s = s).
Proof.
  split.
  - revert prev; induction s as [|c r IH]; intros prev; [done|].
    rewrite escape_dquotes_cons.
    destruct (Ascii.eqb c "034") eqn:E.
    + cbn [quotes_escaped]. rewrite E, IH.
      by change (Ascii.eqb "\" "034") with false.
    + cbn [quotes_escaped]. by rewrite E, IH.
  - induction s as [|c r IH]; [done|]. cbn [has_dquote].
    intros [Hc Hr]%orb_false_iff.
    by rewrite escape_dquotes_cons, Hc, IH.
Qed.

(** Escaping loses nothing: dropping the backslash in front of each
    double quote gives the title back, so distinct titles stay
    distinct. *)
Theorem escape_dquotes_round_trip s :
  unescape_dquotes (JS.escape_dquotes s) = s
  ∧ (∀ s', JS.escape_dquotes s = JS.escape_dquotes s' → s = s').
Proof.
  assert (Hback : ∀ t, unescape_dquotes (JS.escape_dquotes t) = t).
  { induction t as [|c r IH]; [done|].
    rewrite escape_dquotes_cons.
    destruct (Ascii.eqb c "034") eqn:E.
    - apply Ascii.eqb_eq in E as ->.
      change (unescape_dquotes (String "\" (String "034" (JS.escape_dquotes r))))
        with (String "034"%char (unescape_dquotes (JS.escape_dquotes r))).
      by rewrite IH.
    - destruct r as [|d r']; [done|].
      rewrite escape_dquotes_cons in IH |- *.
      destruct (Ascii.eqb d "034") eqn:E'.
      + change (unescape_dquotes (String c (String "\" ?t)))
          with (if (Ascii.eqb c "\" && Ascii.eqb "\" "034")%bool
                then String "\"%char (unescape_dquotes t)
                else String c (unescape_dquotes (String "\" t))).
        change (Ascii.eqb "\" "034") with false.
        by rewrite andb_false_r, IH.
      + change (unescape_dquotes (String c (String d ?t)))
          with (if (Ascii.eqb c "\" && Ascii.eqb d "034")%bool
                then String d (unescape_dquotes t)
                else String c (unescape_dquotes (String d t))).
        by rewrite E', andb_false_r, IH. }
  split; [apply Hback|].
  intros s' Heq. by rewrite <- (Hback s), Heq, Hback.
Qed.

(** The [list_directory] handler fails as [readdir] fails; otherwise it
    lists every entry once, in order and under its name, as a
    ["directory"] when the entry is one and as a ["file"] in every other
    case (links included).  The skills [discoverSkills] finds in a
    directory are exactly what the tool lists there as directories with a
    name that does not start with a dot. *)
Theorem listDirectory_handler_lists W dirPath :
  (∀ err, readdir W dirPath = inl err →
          outcome (Tools.listDirectory_handler W dirPath) = Threw err)
  ∧ (∀ entries, readdir W dirPath = inr entries →
       ∃ listed,
         outcome (Tools.listDirectory_handler W dirPath) = Returned listed
         ∧ map Tools.name listed = map Node.name entries
         ∧ (∀ i e, entries !! i = Some e →
                   Tools.type <$> listed !! i
                   = Some (if isDirectory e then "directory" else "file"))
         ∧ outcome (discoverSkills W dirPath)
           = Returned
               (map Tools.name
                  (List.filter
                     (λ x, String.eqb (Tools.type x) "directory"
                           && negb (JS.startsWith (Tools.name x) "."))
                     listed))).
Proof.
  unfold Tools.listDirectory_handler, fs_readdir. split.
  - by intros err ->.
  - intros entries Hread. rewrite discoverSkills_eq, Hread.
    eexists; split; [reflexivity|]. split; [|split].
    + by rewrite map_map.
    + intros i e Hi.
      change (map ?f entries) with (f <$> entries).
      by rewrite list_lookup_fmap, Hi.
    + unfold outcome, fst. f_equal. clear Hread.
      induction entries as [|e es IH]; [done|]. simpl.
      destruct (isDirectory e); simpl; [|exact IH].
      destruct (JS.startsWith (Node.name e) "."); simpl; [exact IH|].
      f_equal. exact IH.
Qed.

End PublisherCoverage.

(** ** The further properties on concrete runs *)

Section CoverageRuns.
Import Node Sdk Review Props Scenarios Coverage CoverageScenarios.

Ltac run_completes :=
  let H := fresh in
  unfold completes; intros H; vm_compute in H; discriminate H.

Lemma reviewSkill_creation_failure_run :
  outcome (reviewSkill (λ _, create_fails) "alpha" "/repo/skills/alpha")
  = Threw "no session"
  ∧ dropped (trace (reviewSkill (λ _, create_fails) "alpha" "/repo/skills/alpha"))
    = [other_event "session.error"].
Proof.
  destruct (reviewSkill_creation_failure (λ _, create_fails)
              "alpha" "/repo/skills/alpha" "no session" eq_refl)
    as (Hout & _ & _ & Hdrop).
  by split.
Defined.

Lemma report_depends_only_on_messages_and_idle_run :
  outcome (reviewSkill (λ _, answers "report") "alpha" "/repo/skills/alpha")
  = outcome (reviewSkill (λ _, answers_early "report") "beta" "/tmp/beta").
Proof.
  by apply (report_depends_only_on_messages_and_idle
              (λ _, answers "report") "alpha" "/repo/skills/alpha"
              (λ _, answers_early "report") "beta" "/tmp/beta").
Defined.

Lemma destroy_failure_loses_the_report_run :
  outcome (reviewSkill (session_script W_beta_leaks) "beta"
                       (path_join "/repo/skills" "beta"))
  = Threw "destroy failed"
  ∧ printed (trace (review_and_publish W_beta_leaks "/repo/skills" "beta")) = []
  ∧ executed (trace (review_and_publish W_beta_leaks "/repo/skills" "beta")) = [].
Proof.
  destruct (destroy_failure_loses_the_report W_beta_leaks "/repo/skills" "beta"
              "destroy failed") as (Hout & _ & Hprinted & Hexec & _);
    [reflexivity..| |reflexivity|by repeat split].
  apply elem_of_cons; right. by apply list_elem_of_singleton.
Defined.

Lemma reviewSkill_waits_forever_without_idle_run :
  outcome (reviewSkill (λ _, never_idle) "alpha" "/repo/skills/alpha") = Stalled
  ∧ SessionDestroy
    ∉ trace (reviewSkill (λ _, never_idle) "alpha" "/repo/skills/alpha").
Proof.
  apply (reviewSkill_waits_forever_without_idle
           (λ _, never_idle) "alpha" "/repo/skills/alpha");
    [reflexivity|reflexivity|].
  repeat (apply List.Forall_cons; [discriminate|]). apply List.Forall_nil.
Defined.

Lemma stdout_is_the_report_blocks_run :
  stdout (trace (for_of ["alpha"; "beta"]
                        (review_and_publish W_gh_answers "/repo/skills")))
  = report_block "beta" "report" ++ ["https://example.test/issues/1"].
Proof.
  rewrite (stdout_is_the_report_blocks W_gh_answers "/repo/skills" ["alpha"; "beta"]);
    [reflexivity|].
  repeat (apply List.Forall_cons; [run_completes|]). apply List.Forall_nil.
Defined.

Lemma tickets_follow_the_reports_run :
  executed (trace (for_of ["alpha"; "beta"]
                          (review_and_publish W_mixed "/repo/skills")))
  = [issue_command W_mixed "Skill Review: beta" "report"].
Proof.
  rewrite (tickets_follow_the_reports W_mixed "/repo/skills" ["alpha"; "beta"]);
    [reflexivity|reflexivity|].
  repeat (apply List.Forall_cons; [run_completes|]). apply List.Forall_nil.
Defined.

Lemma discovery_failure_is_fatal_run :
  outcome (main W_no_skills_dir) = Threw "ENOENT".
Proof.
  by rewrite (discovery_failure_is_fatal W_no_skills_dir "ENOENT" eq_refl).
Defined.

Lemma client_start_failure_aborts_run :
  outcome (main W_client_down) = Threw "no client"
  ∧ reviewed (trace (main W_client_down)) = [].
Proof.
  destruct (client_start_failure_aborts W_client_down ["alpha"; "beta"]
              "no client" eq_refl eq_refl) as (Hout & _ & Hrev & _).
  by split.
Defined.

Lemma client_is_stopped_after_the_loop_run :
  client_calls (trace (main W_client_stuck)) = [ClientStart; ClientStop]
  ∧ outcome (main W_client_stuck) = Threw "still running"
  ∧ reviewed (trace (main W_client_stuck)) = ["alpha"; "beta"].
Proof.
  apply (client_is_stopped_after_the_loop W_client_stuck ["alpha"; "beta"]
           eq_refl eq_refl).
  repeat (apply List.Forall_cons; [run_completes|]). apply List.Forall_nil.
Defined.

Lemma stalled_review_stalls_main_run :
  outcome (main W_alpha_hangs) = Stalled
  ∧ client_calls (trace (main W_alpha_hangs)) = [ClientStart]
  ∧ reviewed (trace (main W_alpha_hangs)) = ["alpha"].
Proof.
  apply (stalled_review_stalls_main W_alpha_hangs ["alpha"; "beta"]
           [] "alpha" ["beta"]); [reflexivity..|constructor|reflexivity].
Defined.


Lemma parseInt_without_digits_run :
  JS.parseInt (Some "--dry-run") = JS.NaN.
Proof.
  apply (parseInt_without_digits "" Minus "-dry-run");
    [reflexivity|reflexivity|discriminate].
Defined.

Lemma limit_reads_the_first_flag_run :
  limit W_two_limits = JS.Int 1.
Proof.
  destruct (limit_reads_the_first_flag W_two_limits [] ["1"; "--limit"; "2"])
    as [Hlimit _]; [reflexivity|apply not_elem_of_nil|exact Hlimit].
Defined.

Lemma negative_limit_drops_from_the_end_run :
  reviewed (trace (main W_limit_minus_1)) = ["alpha"].
Proof.
  apply (negative_limit_drops_from_the_end W_limit_minus_1 ["alpha"; "beta"]
           (Some "-1") (-1)); [reflexivity..| | |reflexivity|lia].
  - repeat (apply List.Forall_cons; [run_completes|]). apply List.Forall_nil.
  - exists [], ["-1"]. split; [reflexivity|]. split; [apply not_elem_of_nil|reflexivity].
Defined.

Lemma discoverSkills_keeps_names_distinct_run :
  ∃ names,
    discoverSkills W_mixed "/repo/skills"
    = (Returned names, [Readdir "/repo/skills"])
    ∧ NoDup names
    ∧ (length names ≤ 3)%nat.
Proof.
  apply (discoverSkills_keeps_names_distinct W_mixed "/repo/skills" listing eq_refl).
  apply (bool_decide_unpack _). by vm_compute.
Defined.

End CoverageRuns.

(** ** Diagnostics *)

Section DiagnosticsCoverage.
Import Node Sdk Review Props Coverage.

Lemma logged_app t1 t2 : logged (t1 ++ t2) = logged t1 ++ logged t2.
Proof. apply omap_app. Qed.

Lemma logged_on_event e l :
  logged (trace (on_event e l))
  = match tool_line e with
    | Some line => [line]
    | None => []
    end.
Proof. by destruct e. Qed.

Lemma logged_emit_all sc l es :
  logged (trace (emit_all es {| script := sc; listener := Some l |}))
  = omap tool_line es.
Proof.
  revert l; induction es as [|e es IH]; intros l; [done|].
  rewrite emit_all_cons, emit_listening, pair_bind_returned.
  change (trace (?o, ?t)) with t. rewrite logged_app.
  change (logged (Delivered e :: ?t)) with (logged t).
  rewrite logged_on_event, IH.
  change (omap tool_line (e :: es))
    with (match tool_line e with
          | Some y => y :: omap tool_line es
          | None => omap tool_line es
          end).
  by destruct (tool_line e).
Qed.

Lemma logged_dropped es : logged (map Dropped es) = [].
Proof.
  apply (omap_none_Forall _ is_delivery_drop); [by intros []|].
  by apply Forall_fmap, Forall_true.
Qed.

(** What a review writes to the error stream once the session took the
    prompt: its two header lines, then one line per tool call and per
    tool return, in the order of the events.  Messages, idle events and
    unknown events leave no line, and the report never shows there. *)
Theorem reviewSkill_diagnostics client skillName skillPath :
  create_error (client skillName) = None →
  send_error (client skillName) = None →
  logged (trace (reviewSkill client skillName skillPath))
  = [JS.nl +:+ "=== Reviewing skill: " +:+ skillName +:+ " ===" +:+ JS.nl;
     "Starting agent with gpt-5.2-codex..." +:+ JS.nl]
    ++ omap tool_line (emitted_after_prompt (client skillName)).
Proof.
  intros Hc Hs. rewrite (reviewSkill_created _ _ _ Hc), Hs. cbv zeta.
  unfold emitted_after_prompt. rewrite omap_app.
  destruct (done _); change (trace (?o, ?t)) with t;
    rewrite !logged_app, !logged_emit_all, logged_dropped; simpl;
    by rewrite ?app_nil_r.
Qed.

End DiagnosticsCoverage.

Section AnnouncementCoverage.
Import Node Sdk Review Props Coverage.

Lemma main_announces_the_selection W found :
  outcome (discoverSkills W (skills_root W)) = Returned found →
  ConsoleError ("Found "
                +:+ JS.number_to_string
                      (JS.Int (Z.of_nat (length (selected W found))))
                +:+ " skill(s) to review" +:+ JS.nl)
  ∈ trace (main W).
Proof.
  intros Hfound. unfold main, selected. cbv zeta.
  rewrite discoverSkills_eq in Hfound |- *.
  destruct (readdir W (skills_root W)) as [err|entries]; [done|].
  injection Hfound as Hfound. rewrite Hfound.
  unfold mbind, M_bind, bind, tell, mret, M_ret, fail_if, throw, ret.
  destruct (JS.lt_Infinity (limit W)); cbv beta iota;
    (destruct (client_start_error W);
     [|match goal with
       | |- context [for_of ?l ?b] => generalize (for_of l b)
       end; intros [[[]|e|] t]; try destruct (client_stop_error W)]);
    unfold trace, snd; cbn [app];
    repeat (first [apply list_elem_of_here | apply list_elem_of_further]).
Qed.

(** The number of skills [main] announces before starting the client is
    the number of reviews it then performs, limit applied, whenever every
    review completes. *)
Theorem main_announces_the_number_of_reviews W found :
  outcome (discoverSkills W (skills_root W)) = Returned found →
  client_start_error W = None →
  Forall (completes W (skills_root W)) found →
  ConsoleError ("Found "
                +:+ JS.number_to_string
                      (JS.Int (Z.of_nat (length (reviewed (trace (main W))))))
                +:+ " skill(s) to review" +:+ JS.nl)
  ∈ trace (main W).
Proof.
  intros Hfound Hstart Hall.
  destruct (main_around_loop W found Hfound Hstart) as [Ht _].
  cbv zeta in Ht. fold (selected W found) in Ht.
  destruct (for_of_completes W (skills_root W) (selected W found)) as [_ Hsel];
    [by apply Forall_selected|].
  rewrite Ht, Hsel. by apply main_announces_the_selection.
Qed.

End AnnouncementCoverage.

Section DiagnosticsRuns.
Import Node Sdk Review Props Scenarios Coverage CoverageScenarios.

Lemma reviewSkill_diagnostics_run :
  logged (trace (reviewSkill (λ _, answers "report") "alpha" "/repo/skills/alpha"))
  = [JS.nl +:+ "=== Reviewing skill: alpha ===" +:+ JS.nl;
     "Starting agent with gpt-5.2-codex..." +:+ JS.nl;
     "[Agent] Calling list_directory({})";
     "[Tool]  -> (returned)"].
Proof.
  exact (reviewSkill_diagnostics (λ _, answers "report")
           "alpha" "/repo/skills/alpha" eq_refl eq_refl).
Defined.

Lemma main_announces_the_number_of_reviews_run :
  ConsoleError ("Found 1 skill(s) to review" +:+ JS.nl) ∈ trace (main W_limit_1).
Proof.
  assert (Hrev : reviewed (trace (main W_limit_1)) = ["alpha"]) by by vm_compute.
  pose proof (main_announces_the_number_of_reviews W_limit_1 ["alpha"; "beta"]
                eq_refl eq_refl) as Hin.
  rewrite Hrev in Hin. apply Hin.
  repeat (apply List.Forall_cons;
          [unfold completes; let H := fresh in
           intros H; vm_compute in H; discriminate H|]).
  apply List.Forall_nil.
Defined.

End DiagnosticsRuns.
